(** * GeoGenius heatmap engine: a shallow embedding of
    [src/components/Heatmap.tsx] and of the target update in [src/App.tsx].

    JavaScript numbers are modelled as real numbers ([R]); the one claim
    about NaN and Infinity is settled on binary64 floats ([PrimFloat]),
    which is what the JavaScript engine evaluates. *)

From Stdlib Require Import String.
Open Scope string_scope.
From Stdlib Require Import Reals Lra List Sorting.Permutation Sorting.Sorted
  ZArith Bool Lia.
From Stdlib Require Floats.
Import ListNotations.
Open Scope bool_scope.
Open Scope R_scope.

(** ** Data model ([src/types.ts]) *)

(** [interface TargetArea] *)
Record TargetArea := mkTarget {
  id : Z;
  x : R;
  y : R;
  probability : R;
  description : string;
  reasoning : option string
}.

(** The string key of a cluster: [`cluster-${p.id}`] or [`point-${p.id}`]. *)
Inductive ClusterKey := ClusterKeyOf (k : Z) | PointKeyOf (k : Z).

(** [interface Cluster] *)
Record Cluster := mkCluster {
  cid : ClusterKey;
  cx : R;
  cy : R;
  points : list TargetArea;
  isCluster : bool
}.

(** The SVG view box [{ x, y, w, h }]. *)
Record ViewBox := mkViewBox { vx : R; vy : R; vw : R; vh : R }.

(** ** [Array.prototype.sort] with comparator [(a, b) => a.x - b.x]

    The sort of the engine is stable, so for this comparator its result is
    the one of a stable insertion sort: an element goes before the first
    already sorted element [b] with [cmp a b < 0]. *)
Fixpoint insert_by_x (a : TargetArea) (l : list TargetArea) : list TargetArea :=
  match l with
  | [] => [a]
  | b :: l' => if Rlt_dec (x a - x b) 0 then a :: b :: l' else b :: insert_by_x a l'
  end.

Definition sort_by_x (l : list TargetArea) : list TargetArea :=
  fold_left (fun acc a => insert_by_x a acc) l [].

(** ** Clustering ([const clusters = useMemo(...)], lines 211-248) *)

(** [Math.sqrt(Math.pow(neighbor.x - p.x, 2) + Math.pow(neighbor.y - p.y, 2))] *)
Definition dist (neighbor p : TargetArea) : R :=
  sqrt ((x neighbor - x p) ^ 2 + (y neighbor - y p) ^ 2).

(** The inner [for j] loop: it walks [sortedPoints[i+1..]], skips the ids
    already in [used], and pushes every neighbour within [threshold] while
    adding its id to [used].  Returns the pushed neighbours and the new
    [used] set. *)
Fixpoint scan (threshold : R) (p : TargetArea) (rest : list TargetArea)
    (used : list Z) : list TargetArea * list Z :=
  match rest with
  | [] => ([], used)
  | neighbor :: rest' =>
      if in_dec Z.eq_dec (id neighbor) used then scan threshold p rest' used
      else if Rle_dec (dist neighbor p) threshold then
        let (ms, used') := scan threshold p rest' (id neighbor :: used) in
        (neighbor :: ms, used')
      else scan threshold p rest' used
  end.

(** [clusterPoints.reduce((sum, c) => sum + c.x, 0) / clusterPoints.length] *)
Definition avg (f : TargetArea -> R) (pts : list TargetArea) : R :=
  fold_left (fun sum c => sum + f c) pts 0 / INR (length pts).

(** The [result.push({...})] of one cluster seeded by [p]. *)
Definition make_cluster (p : TargetArea) (clusterPoints : list TargetArea) : Cluster :=
  {| cid := if Nat.ltb 1 (length clusterPoints) then ClusterKeyOf (id p) else PointKeyOf (id p);
     cx := avg x clusterPoints;
     cy := avg y clusterPoints;
     points := clusterPoints;
     isCluster := Nat.ltb 1 (length clusterPoints) |}.

(** The outer [for i] loop over the sorted points. *)
Fixpoint cluster_loop (threshold : R) (sorted : list TargetArea) (used : list Z)
    : list Cluster :=
  match sorted with
  | [] => []
  | p :: rest =>
      if in_dec Z.eq_dec (id p) used then cluster_loop threshold rest used
      else
        let (ms, used') := scan threshold p rest (id p :: used) in
        make_cluster p (p :: ms) :: cluster_loop threshold rest used'
  end.

(** [clusters] for a view box of width [viewBox_w]. *)
Definition clusters (viewBox_w : R) (targetAreas : list TargetArea) : list Cluster :=
  let threshold := viewBox_w * 0.08 in
  cluster_loop threshold (sort_by_x targetAreas) [].

(** ** Heatmap surface ([const cells = useMemo(...)], lines 283-315) *)

Definition gridSize : nat := 30.

Record Cell := mkCell {
  cell_x : R;
  cell_y : R;
  cell_w : R;
  cell_h : R;
  intensity : R
}.

(** [target.probability * Math.exp(-(dist * dist) / 100)] *)
Definition influence (cx0 cy0 : R) (target : TargetArea) : R :=
  let d := sqrt ((cx0 - x target) ^ 2 + (cy0 - y target) ^ 2) in
  probability target * exp ((- (d * d)) / 100).

(** The body of the inner [for j] loop: the cell pushed for [(i, j)]. *)
Definition cell_at (viewBox : ViewBox) (targetAreas : list TargetArea) (i j : nat) : Cell :=
  let cellW := vw viewBox / INR gridSize in
  let cellH := vh viewBox / INR gridSize in
  let cx0 := vx viewBox + (INR i * cellW) + (cellW / 2) in
  let cy0 := vy viewBox + (INR j * cellH) + (cellH / 2) in
  let sum := fold_left (fun acc target => acc + influence cx0 cy0 target) targetAreas 0 in
  {| cell_x := vx viewBox + (INR i * cellW);
     cell_y := vy viewBox + (INR j * cellH);
     cell_w := cellW;
     cell_h := cellH;
     intensity := Rmin sum 1 |}.

(** The two nested loops, pushing in the order [i] then [j]. *)
Definition cells (viewBox : ViewBox) (targetAreas : list TargetArea) : list Cell :=
  flat_map (fun i => map (fun j => cell_at viewBox targetAreas i j) (seq 0 gridSize))
    (seq 0 gridSize).

(** ** View box and interaction state of the component *)

(** [getBaseViewBox], with [aspect = width / height]. *)
Definition getBaseViewBox (width height : R) : ViewBox :=
  let aspect := width / height in
  let wh := if Rlt_dec 1 aspect then (100 * aspect, 100) else (100, 100 / aspect) in
  {| vx := 50 - fst wh / 2; vy := 50 - snd wh / 2; vw := fst wh; vh := snd wh |}.

(** The React state and refs the handlers read and write. *)
Record HState := mkHState {
  viewBox : ViewBox;
  isDragging : bool;
  dragStart : R * R;
  dragDistance : R;            (* dragDistanceRef.current *)
  selectedTargetId : option Z
}.

Definition set_viewBox (v : ViewBox) (s : HState) : HState :=
  mkHState v (isDragging s) (dragStart s) (dragDistance s) (selectedTargetId s).
Definition set_drag (b : bool) (s : HState) : HState :=
  mkHState (viewBox s) b (dragStart s) (dragDistance s) (selectedTargetId s).
Definition set_dragStart (p : R * R) (s : HState) : HState :=
  mkHState (viewBox s) (isDragging s) p (dragDistance s) (selectedTargetId s).
Definition set_dragDistance (d : R) (s : HState) : HState :=
  mkHState (viewBox s) (isDragging s) (dragStart s) d (selectedTargetId s).
Definition set_selected (o : option Z) (s : HState) : HState :=
  mkHState (viewBox s) (isDragging s) (dragStart s) (dragDistance s) o.

(** [handleMouseDown] *)
Definition handleMouseDown (button : Z) (clientX clientY : R) (s : HState) : HState :=
  if negb (Z.eqb button 0) then s
  else set_dragDistance 0 (set_dragStart (clientX, clientY) (set_drag true s)).

(** [x === 0] *)
Definition is_zero (r : R) : bool := if Req_EM_T r 0 then true else false.

(** [handleMouseMove] for a container of [width] x [height] pixels. *)
Definition handleMouseMove (width height : R) (clientX clientY : R) (s : HState) : HState :=
  if negb (isDragging s) then s
  else
    let dx := clientX - fst (dragStart s) in
    let dy := clientY - snd (dragStart s) in
    let s1 := set_dragDistance (dragDistance s + (Rabs dx + Rabs dy)) s in
    if is_zero dx && is_zero dy then s1
    else
      let scaleX := vw (viewBox s) / width in
      let scaleY := vh (viewBox s) / height in
      let prev := viewBox s1 in
      set_dragStart (clientX, clientY)
        (set_viewBox (mkViewBox (vx prev - dx * scaleX) (vy prev - dy * scaleY)
                        (vw prev) (vh prev)) s1).

(** [handleMouseUp] (also bound to [onMouseLeave]) *)
Definition handleMouseUp (s : HState) : HState := set_drag false s.

(** [handleContainerClick] *)
Definition handleContainerClick (s : HState) : HState :=
  if Rlt_dec (dragDistance s) 5 then set_selected None s else s.

(** [handleZoom] (the zoom buttons), as the updater passed to [setViewBox]. *)
Definition handleZoom (width height : R) (factor : R) (prev : ViewBox) : ViewBox :=
  let base := getBaseViewBox width height in
  let newW := vw prev * factor in
  let newH := vh prev * factor in
  if Rlt_dec (vw base) newW then base
  else if Rlt_dec newW 2 then prev
  else
    let dW := vw prev - newW in
    let dH := vh prev - newH in
    mkViewBox (vx prev + dW / 2) (vy prev + dH / 2) newW newH.

(** One step of [cluster.points.forEach(...)] on [(minX, maxX, minY, maxY)]. *)
Definition bbox_step (acc : R * R * R * R) (p : TargetArea) : R * R * R * R :=
  let '(minX, maxX, minY, maxY) := acc in
  let minX := if Rlt_dec (x p) minX then x p else minX in
  let maxX := if Rlt_dec maxX (x p) then x p else maxX in
  let minY := if Rlt_dec (y p) minY then y p else minY in
  let maxY := if Rlt_dec maxY (y p) then y p else maxY in
  (minX, maxX, minY, maxY).

(** The view box set by the drill-down branch of [handleClusterClick]. *)
Definition drillDown (width height : R) (pts : list TargetArea) : ViewBox :=
  let '(minX, maxX, minY, maxY) := fold_left bbox_step pts (100, 0, 100, 0) in
  let clusterW := maxX - minX in
  let clusterH := maxY - minY in
  let pad0 := Rmax clusterW clusterH * 0.5 in
  (* [pad0 || 10]: over the reals the only falsy value is 0 *)
  let pad := if Req_EM_T pad0 0 then 10 else pad0 in
  let targetW := Rmax (clusterW + pad) 10 in
  let targetH := Rmax (clusterH + pad) 10 in
  let dim := Rmax targetW targetH in
  let targetX := (minX + maxX) / 2 - dim / 2 in
  let targetY := (minY + maxY) / 2 - dim / 2 in
  let aspect := width / height in
  if Rlt_dec 1 aspect then mkViewBox targetX targetY (targetH * aspect) targetH
  else mkViewBox targetX targetY targetW (targetW / aspect).

(** [handleClusterClick] (after [e.stopPropagation()]). *)
Definition handleClusterClick (width height : R) (c : Cluster) (s : HState) : HState :=
  if Rlt_dec 5 (dragDistance s) then s
  else if negb (isCluster c) then
    match points c with
    | p :: _ => set_selected (Some (id p)) s
    | [] => s  (* clusters are never empty *)
    end
  else set_viewBox (drillDown width height (points c)) s.

(** The DOM events of a gesture.  A click on a cluster's [<g>] runs
    [handleClusterClick], whose [e.stopPropagation()] keeps the click from
    reaching the container's [onClick]; a click elsewhere runs
    [handleContainerClick]. *)
Inductive Event :=
| MouseDown (button : Z) (clientX clientY : R)
| MouseMove (clientX clientY : R)
| MouseUp
| ClickEmpty
| ClickCluster (c : Cluster).

Definition dispatch (width height : R) (s : HState) (ev : Event) : HState :=
  match ev with
  | MouseDown b cx0 cy0 => handleMouseDown b cx0 cy0 s
  | MouseMove cx0 cy0 => handleMouseMove width height cx0 cy0 s
  | MouseUp => handleMouseUp s
  | ClickEmpty => handleContainerClick s
  | ClickCluster c => handleClusterClick width height c s
  end.

Definition run (width height : R) (evs : list Event) (s : HState) : HState :=
  fold_left (dispatch width height) evs s.

(** ** The analysis result owned by [App] ([src/App.tsx]) *)

(** [interface Zone] *)
Record Zone := mkZone { ztype : string; area : string; color : string }.

(** [interface PredictionResult] *)
Record PredictionResult := mkPrediction {
  porphyryPotential : string;
  epithermalPotential : string;
  confidenceScore : R;
  alterationMinerals : list string;
  zones : list Zone;
  targetAreas : list TargetArea;
  recommendedActions : list string;
  prediction_reasoning : string
}.

(** [{ ...target, description: newDescription }] *)
Definition with_description (t : TargetArea) (newDescription : string) : TargetArea :=
  mkTarget (id t) (x t) (y t) (probability t) newDescription (reasoning t).

(** [handleUpdateTargetDescription], as a function of the [analysisResult]
    state ([None] is [null]). *)
Definition handleUpdateTargetDescription (analysisResult : option PredictionResult)
    (tid : Z) (newDescription : string) : option PredictionResult :=
  match analysisResult with
  | None => None
  | Some r =>
      let updatedTargets :=
        map (fun target => if Z.eqb (id target) tid
                           then with_description target newDescription else target)
            (targetAreas r) in
      Some (mkPrediction (porphyryPotential r) (epithermalPotential r) (confidenceScore r)
              (alterationMinerals r) (zones r) updatedTargets (recommendedActions r)
              (prediction_reasoning r))
  end.

(** ** The view box computations on binary64 numbers

    The same code as [getBaseViewBox] and the pixel-to-data projection of
    [handleWheel], evaluated on IEEE-754 doubles as the engine does. *)
Module Float64.
Import Floats.PrimFloat.
Local Open Scope float_scope.

Record ViewBoxF := mkViewBoxF { fx : float; fy : float; fw : float; fh : float }.

(** [getBaseViewBox] with [aspect = width / height] *)
Definition getBaseViewBox (width height : float) : ViewBoxF :=
  let aspect := width / height in
  let wh := if 1 <? aspect then (100 * aspect, 100) else (100, 100 / aspect) in
  {| fx := 50 - fst wh / 2; fy := 50 - snd wh / 2; fw := fst wh; fh := snd wh |}.

(** [viewBox.x + (mx / width) * viewBox.w] of [handleWheel] *)
Definition svgX (viewBox : ViewBoxF) (mx width : float) : float :=
  fx viewBox + (mx / width) * fw viewBox.

(** A number that is neither NaN nor infinite. *)
Definition finite (f : float) : bool := negb (is_nan f) && negb (is_infinity f).

Definition finiteF (v : ViewBoxF) : bool :=
  finite (fx v) && finite (fy v) && finite (fw v) && finite (fh v).

End Float64.

(** ** Wheel zoom, tooltip and editing in [Heatmap.tsx] *)

(** [Math.sign] over the reals *)
Definition sign (r : R) : R := if Rlt_dec 0 r then 1 else if Rlt_dec r 0 then -1 else 0.

(** [handleWheel], with [mx], [my] the pointer position relative to the
    container ([e.clientX - rect.left], [e.clientY - rect.top]); [viewBox] is
    both the rendered view box and the [prev] of the updater. *)
Definition handleWheel (width height deltaY mx my : R) (viewBox : ViewBox) : ViewBox :=
  let zoomSpeed := 0.001 in
  let dy := deltaY in
  let delta := sign dy * Rmin (Rabs dy) 100 in
  let factor := 1 + delta * zoomSpeed in
  let aspect := width / height in
  let svgX := vx viewBox + (mx / width) * vw viewBox in
  let svgY := vy viewBox + (my / height) * vh viewBox in
  let prev := viewBox in
  let newW := vw prev * factor in
  let newH := vh prev * factor in
  let base := getBaseViewBox width height in
  let '(newW, newH) := if Rlt_dec (vw base) newW then (vw base, vh base) else (newW, newH) in
  let '(newW, newH) := if Rlt_dec newW 2 then (2, 2 / aspect) else (newW, newH) in
  let newX := svgX - (mx / width) * newW in
  let newY := svgY - (my / height) * newH in
  let bufferX := vw base * 0.5 in
  let bufferY := vh base * 0.5 in
  let newX := if Rlt_dec newX (vx base - bufferX) then vx base - bufferX else newX in
  let newY := if Rlt_dec newY (vy base - bufferY) then vy base - bufferY else newY in
  let newX := if Rlt_dec (vx base + vw base + bufferX) (newX + newW)
              then vx base + vw base + bufferX - newW else newX in
  let newY := if Rlt_dec (vy base + vh base + bufferY) (newY + newH)
              then vy base + vh base + bufferY - newH else newY in
  if Rlt_dec (Rabs (newW - vw base)) 0.1 then base else mkViewBox newX newY newW newH.

(** The view box events besides the mouse gesture: the wheel, the two zoom
    buttons ([handleZoom(0.75)], [handleZoom(1.33)], any factor here) and
    the reset button ([resetZoom]). *)
Inductive ViewEvent :=
| Gesture (e : Event)
| Wheel (deltaY mx my : R)
| ZoomButton (factor : R)
| ResetZoom.

Definition dispatch_view (width height : R) (s : HState) (ev : ViewEvent) : HState :=
  match ev with
  | Gesture e => dispatch width height s e
  | Wheel d mx my => set_viewBox (handleWheel width height d mx my (viewBox s)) s
  | ZoomButton f => set_viewBox (handleZoom width height f (viewBox s)) s
  | ResetZoom => set_viewBox (getBaseViewBox width height) s
  end.

Definition run_view (width height : R) (evs : list ViewEvent) (s : HState) : HState :=
  fold_left (dispatch_view width height) evs s.

(** [getTooltipPosition], as the two percentages before formatting. *)
Definition getTooltipPosition (c : Cluster) (viewBox : ViewBox) : R * R :=
  (((cx c - vx viewBox) / vw viewBox) * 100, ((cy c - vy viewBox) / vh viewBox) * 100).

(** [getColor], as the red, green, blue and alpha components of the
    [rgba(...)] string it returns. *)
Definition getColor (intensity : R) : Z * Z * Z * R :=
  if Rlt_dec intensity 0.1 then (0%Z, 0%Z, 0%Z, 0)
  else if Rlt_dec intensity 0.3 then (56%Z, 189%Z, 248%Z, intensity)
  else if Rlt_dec intensity 0.6 then (52%Z, 211%Z, 153%Z, intensity)
  else (248%Z, 113%Z, 113%Z, intensity).

(** [isEditing] and [editDescription] *)
Record EditState := mkEdit { isEditing : bool; editDescription : string }.

(** [selectedTarget]: [targetAreas.find(t => t.id === selectedTargetId) || null] *)
Definition selectedTarget (targetAreas : list TargetArea) (sel : option Z) : option TargetArea :=
  match sel with
  | None => None
  | Some k => find (fun t => Z.eqb (id t) k) targetAreas
  end.

(** [handleSave]; [onUpdateTarget] is [App]'s [handleUpdateTargetDescription]
    (passed down through [ResultsDashboard]). *)
Definition handleSave (targetAreas : list TargetArea) (sel : option Z) (e : EditState)
    (analysisResult : option PredictionResult) : option PredictionResult * EditState :=
  match selectedTarget targetAreas sel with
  | Some t => (handleUpdateTargetDescription analysisResult (id t) (editDescription e),
               mkEdit false (editDescription e))
  | None => (analysisResult, e)
  end.

(** [handleCancel] *)
Definition handleCancel (targetAreas : list TargetArea) (sel : option Z) (e : EditState)
    : EditState :=
  match selectedTarget targetAreas sel with
  | Some t => mkEdit false (description t)
  | None => mkEdit false (editDescription e)
  end.

(** [handleKeyDown] *)
Definition handleKeyDown (key : string) (metaKey ctrlKey : bool)
    (targetAreas : list TargetArea) (sel : option Z) (e : EditState)
    (analysisResult : option PredictionResult) : option PredictionResult * EditState :=
  if String.eqb key "Enter" && (metaKey || ctrlKey) then handleSave targetAreas sel e analysisResult
  else if String.eqb key "Escape" then (analysisResult, handleCancel targetAreas sel e)
  else (analysisResult, e).

(** ** Target filtering in [ResultsDashboard.tsx] (the caller of [Heatmap]) *)

(** [String.prototype.includes] *)
Fixpoint includes (text sub : string) : bool :=
  match text with
  | EmptyString => String.prefix sub EmptyString
  | String c rest => String.prefix sub text || includes rest sub
  end.

(** [Set.prototype.add] on the insertion-ordered contents of a set. *)
Definition set_add (tag : string) (tags : list string) : list string :=
  if existsb (String.eqb tag) tags then tags else tags ++ [tag].

(** [if (cond) tags.add(tag)] *)
Definition add_when (cond : bool) (tag : string) (tags : list string) : list string :=
  if cond then set_add tag tags else tags.

(** [Array.prototype.sort()] on strings: stable, by code units. *)
Fixpoint insert_str (a : string) (l : list string) : list string :=
  match l with
  | [] => [a]
  | b :: l' => if String.ltb a b then a :: b :: l' else b :: insert_str a l'
  end.

Definition sort_strings (l : list string) : list string :=
  fold_left (fun acc a => insert_str a acc) l [].

Section Tags.
(** [String.prototype.toLowerCase], left abstract. *)
Variable toLowerCase : string -> string.

(** [getTargetTags] *)
Definition getTargetTags (target : TargetArea) : list string :=
  let text := toLowerCase (String.append (description target)
                (String.append " " (match reasoning target with Some r => r | None => EmptyString end))) in
  let has := includes text in
  let tags := [] in
  let tags := add_when (has "potassic" || has "biotite" || has "k-feldspar") "Potassic" tags in
  let tags := add_when (has "phyllic" || has "sericite" || has "pyrite" || has "qsp")
                "Phyllic" tags in
  let tags := add_when (has "argillic" || has "kaolinite" || has "clay" || has "alunite")
                "Argillic" tags in
  let tags := add_when (has "propylitic" || has "chlorite" || has "epidote")
                "Propylitic" tags in
  let tags := add_when (has "silicic" || has "silica" || has "quartz" || has "stockwork")
                "Silicic/Qtz" tags in
  let tags := add_when (has "vein") "Veining" tags in
  let tags := add_when (has "breccia") "Breccia" tags in
  let tags := add_when (has "fault" || has "structure") "Structural" tags in
  let tags := if Nat.eqb (length tags) 0 then set_add "Unclassified" tags else tags in
  sort_strings tags.

Inductive ProbCategory := High | Medium | Low.

(** [getProbabilityCategory] *)
Definition getProbabilityCategory (prob : R) : ProbCategory :=
  if Rle_dec 0.6 prob then High else if Rle_dec 0.3 prob then Medium else Low.

(** [activeFilters] *)
Record Filters := mkFilters { f_high : bool; f_medium : bool; f_low : bool }.

Definition activeFilter (f : Filters) (cat : ProbCategory) : bool :=
  match cat with High => f_high f | Medium => f_medium f | Low => f_low f end.

(** [toggleFilter] *)
Definition toggleFilter (key : ProbCategory) (f : Filters) : Filters :=
  match key with
  | High => mkFilters (negb (f_high f)) (f_medium f) (f_low f)
  | Medium => mkFilters (f_high f) (negb (f_medium f)) (f_low f)
  | Low => mkFilters (f_high f) (f_medium f) (negb (f_low f))
  end.

(** [displayedTargets]; [disabledTags] holds the contents of the set. *)
Definition displayedTargets (targetAreas : list TargetArea) (activeFilters : Filters)
    (disabledTags : list string) : list TargetArea :=
  filter (fun target =>
            let cat := getProbabilityCategory (probability target) in
            if negb (activeFilter activeFilters cat) then false
            else existsb (fun t => negb (existsb (String.eqb t) disabledTags))
                   (getTargetTags target))
         targetAreas.

End Tags.

(** [toggleTag] *)
Definition toggleTag (tag : string) (prev : list string) : list string :=
  if existsb (String.eqb tag) prev then remove string_dec tag prev else prev ++ [tag].

(** The double quote character. *)
Definition quote : Ascii.ascii := Ascii.ascii_of_nat 34.

(** The global [replace] of [handleDownloadCSV] that doubles every double
    quote character. *)
Fixpoint escape_quotes (s : string) : string :=
  match s with
  | EmptyString => EmptyString
  | String c r =>
      if Ascii.eqb c quote then String quote (String quote (escape_quotes r))
      else String c (escape_quotes r)
  end.

(** The [desc] and [reasoning] fields of a row of [handleDownloadCSV]. *)
Definition csvDesc (target : TargetArea) : string :=
  if String.eqb (description target) EmptyString then EmptyString else escape_quotes (description target).

Definition csvReasoning (target : TargetArea) : string :=
  match reasoning target with
  | Some r => if String.eqb r EmptyString then EmptyString else escape_quotes r
  | None => EmptyString
  end.

(** ** Files and the analysis run in [App.tsx] *)

Inductive SourceType := SrcFile | SrcUrl.

(** [enum FileCategory] *)
Inductive FileCategory := SATELLITE | MAPS | GEOCHEM | GEOPHYSICS | FIELD_PETROLOGY.

(** The [File] fields the app reads. *)
Record FileMeta := mkFileMeta { fname : string; ftype : string }.

(** [interface UploadedFile] *)
Record UploadedFile := mkUploaded {
  fid : string;
  sourceType : SourceType;
  file : option FileMeta;
  url : option string;
  category : FileCategory;
  previewUrl : option string;
  base64 : option string
}.

(** [handleAddLink]; [newId] is the random id the code draws. *)
Definition handleAddLink (newId : string) (u : string) (c : FileCategory)
    (files : list UploadedFile) : list UploadedFile :=
  files ++ [mkUploaded newId SrcUrl None (Some u) c None None].

(** [handleRemoveFile] *)
Definition handleRemoveFile (i : string) (files : list UploadedFile) : list UploadedFile :=
  filter (fun f => negb (String.eqb (fid f) i)) files.

(** [handleUpload]; each new file comes with the id drawn for it, and
    [createObjectURL] stands for [URL.createObjectURL]. *)
Definition handleUpload (createObjectURL : FileMeta -> string)
    (newFiles : list (string * FileMeta)) (c : FileCategory)
    (files : list UploadedFile) : list UploadedFile :=
  files ++ map (fun '(i, f) =>
                  mkUploaded i SrcFile (Some f) None c
                    (if String.prefix "image/" (ftype f) then Some (createObjectURL f) else None)
                    None)
               newFiles.

Inductive Tab := TabUpload | TabAnalysis | TabResults.

(** [enum AppStatus] *)
Inductive AppStatus := IDLE | ANALYZING | COMPLETE | ERROR.

Record AppState := mkApp {
  activeTab : Tab;
  files : list UploadedFile;
  status : AppStatus;
  analysisResult : option PredictionResult;
  errorMessage : string
}.

(** The synchronous part of [handleRunAnalysis], up to the [await]; the
    [alert] branches leave the state as it is. *)
Definition startAnalysis (onLine : bool) (s : AppState) : AppState :=
  if negb onLine then s
  else if Nat.eqb (length (files s)) 0 then s
  else mkApp TabAnalysis (files s) ANALYZING (analysisResult s) EmptyString.

(** How [analyzeGeologicalData(files)] settles: a result, or an error with
    its [message] ([None] when it has none). *)
Inductive Outcome := Resolved (r : PredictionResult) | Rejected (message : option string).

(** The part of [handleRunAnalysis] after the [await]. *)
Definition finishAnalysis (o : Outcome) (s : AppState) : AppState :=
  match o with
  | Resolved r => mkApp TabResults (files s) COMPLETE (Some r) (errorMessage s)
  | Rejected m =>
      let msg := match m with
                 | Some m => if String.eqb m EmptyString then "An unknown error occurred." else m
                 | None => "An unknown error occurred."
                 end in
      mkApp (activeTab s) (files s) ERROR (analysisResult s) msg
  end.

(** ** File selection in [FileUpload.tsx] (the caller of [handleUpload]) *)

(** [s.split(sep)] *)
Fixpoint split_on (sep : Ascii.ascii) (s : string) : list string :=
  match s with
  | EmptyString => [EmptyString]
  | String c r =>
      let rest := split_on sep r in
      if Ascii.eqb c sep then EmptyString :: rest
      else match rest with
           | w :: ws => String c w :: ws
           | [] => [String c EmptyString]
           end
  end.

(** [s.endsWith(suf)] *)
Definition endsWith (s suf : string) : bool :=
  Nat.leb (String.length suf) (String.length s) &&
  String.eqb (substring (String.length s - String.length suf) (String.length suf) s) suf.

(** [s.replace(pat, rep)] with a string pattern: the first occurrence only. *)
Definition replace_first (pat rep s : string) : string :=
  match String.index 0 pat s with
  | Some n => String.append (substring 0 n s)
                (String.append rep
                   (substring (n + String.length pat)
                      (String.length s - n - String.length pat) s))
  | None => s
  end.

Section Accept.
(** [String.prototype.trim] and [String.prototype.toLowerCase], left abstract. *)
Variable trim : string -> string.
Variable toLowerCase : string -> string.

(** [isValidFileType] *)
Definition isValidFileType (file : FileMeta) (acceptString : string) : bool :=
  if String.eqb acceptString EmptyString then true
  else
    (* [acceptString.split(',')]: 44 is the code of the comma *)
    let rules := map (fun s => toLowerCase (trim s)) (split_on (Ascii.ascii_of_nat 44) acceptString) in
    existsb (fun rule =>
               if String.prefix "." rule then endsWith (toLowerCase (fname file)) rule
               else if endsWith rule "/*" then
                 let group := replace_first "/*" EmptyString rule in
                 String.prefix group (ftype file)
               else String.eqb (ftype file) rule)
            rules.

(** [handleFileChange] on the selected files: the count put in the error
    message, if any, and the files passed to [onUpload], if any. *)
Definition handleFileChange (accept : string) (selectedFiles : list FileMeta)
    : option nat * option (list FileMeta) :=
  match selectedFiles with
  | [] => (None, None)
  | _ =>
      let validFiles := filter (fun f => isValidFileType f accept) selectedFiles in
      let invalidCount := (length selectedFiles - length validFiles)%nat in
      let err := if Nat.ltb 0 invalidCount then Some invalidCount else None in
      let up := if Nat.ltb 0 (length validFiles) then Some validFiles else None in
      (err, up)
  end.

End Accept.

(** ** Auxiliary definitions of the statements *)

(** The arithmetic mean of [f] over a list, as the spec states it. *)
Definition mean (f : TargetArea -> R) (pts : list TargetArea) : R :=
  fold_right Rplus 0 (map f pts) / INR (length pts).

Definition memb (k : Z) (used : list Z) : bool :=
  if in_dec Z.eq_dec k used then true else false.

Definition within (threshold : R) (p n : TargetArea) : bool :=
  if Rle_dec (dist n p) threshold then true else false.

Definition cluster_ok (c : Cluster) : Prop :=
  points c <> [] /\ cx c = mean x (points c) /\ cy c = mean y (points c).

(** The members of the first cluster (the one seeded by the leftmost point). *)
Definition first_members (w : R) (P : list TargetArea) : list TargetArea :=
  match clusters w P with
  | c :: _ => points c
  | [] => []
  end.

(** The number of points in multi-member clusters. *)
Definition merged_count (w : R) (P : list TargetArea) : nat :=
  list_sum (map (fun c => if isCluster c then length (points c) else 0%nat) (clusters w P)).

(** Sortedness by [x], for the order-independence argument. *)
Definition xle (a b : TargetArea) : Prop := x a <= x b.
Definition xlt (a b : TargetArea) : Prop := x a < x b.

(** The density of the spec at a data-space point: the clamped sum of
    [probability * exp(-d^2 / 100)] over all points. *)
Definition spec_intensity (px py : R) (P : list TargetArea) : R :=
  Rmin 1 (fold_right Rplus 0
    (map (fun t => probability t * exp (- ((px - x t) ^ 2 + (py - y t) ^ 2) / 100)) P)).

(** The centre of cell [(i, j)] of a 30 x 30 grid spanning the view box. *)
Definition center_x (vb : ViewBox) (i : nat) : R := vx vb + (INR i + / 2) * (vw vb / 30).
Definition center_y (vb : ViewBox) (j : nat) : R := vy vb + (INR j + / 2) * (vh vb / 30).

(** The data-space coordinate under pixel [m] of a container of [size]
    pixels: [viewBox.x + (mx / width) * viewBox.w], as in [handleWheel]. *)
Definition to_data_x (vb : ViewBox) (width mx : R) : R := vx vb + (mx / width) * vw vb.
Definition to_data_y (vb : ViewBox) (height my : R) : R := vy vb + (my / height) * vh vb.

(** A view box with the container's aspect ratio: [h / w] is the base
    rectangle's [h / w]. *)
Definition aspect_ok (width height : R) (vb : ViewBox) : Prop :=
  vh vb * vw (getBaseViewBox width height) = vw vb * vh (getBaseViewBox width height).

(** The rectangle the origin clamps of [handleWheel] keep a view box in: the
    base rectangle widened by half its extent on each side. *)
Definition in_buffer (base vb : ViewBox) : Prop :=
  vx base - vw base * 0.5 <= vx vb /\ vx vb + vw vb <= vx base + vw base + vw base * 0.5 /\
  vy base - vh base * 0.5 <= vy vb /\ vy vb + vh vb <= vy base + vh base + vh base * 0.5.

(** The view box invariant: no narrower than the zoom limit 2, and with the
    container's aspect ratio. *)
Definition view_inv (width height : R) (vb : ViewBox) : Prop :=
  2 <= vw vb /\ aspect_ok width height vb.

(** The tags [getTargetTags] can produce. *)
Definition tag_names : list string :=
  ["Potassic"; "Phyllic"; "Argillic"; "Propylitic"; "Silicic/Qtz"; "Veining"; "Breccia";
   "Structural"; "Unclassified"].

(** How a CSV reader decodes a quoted field: a doubled quote stands for one
    quote. *)
Fixpoint unquote (s : string) : string :=
  match s with
  | String c ((String c' r) as rest) =>
      if Ascii.eqb c quote && Ascii.eqb c' quote then String quote (unquote r)
      else String c (unquote rest)
  | _ => s
  end.

(** Every quote of the field is part of a doubled quote, so none ends the
    field. *)
Fixpoint quotes_paired (s : string) : bool :=
  match s with
  | EmptyString => true
  | String c r =>
      if Ascii.eqb c quote then
        match r with
        | String c' r' => Ascii.eqb c' quote && quotes_paired r'
        | EmptyString => false
        end
      else quotes_paired r
  end.

(** ** Sample inputs used by the witnesses and counterexamples *)

Definition tA : TargetArea := mkTarget 1 0 0 1 "A" None.
Definition tB : TargetArea := mkTarget 2 0 5 1 "B" None.
Definition tC : TargetArea := mkTarget 3 0 10 1 "C" None.
Definition dragging_state : HState :=
  mkHState (mkViewBox 0 0 100 100) true (10, 20) 0 None.

Definition sample_result : PredictionResult :=
  mkPrediction "high" "low" 0.8 ["sericite"] [] [tA; tB] [] "porphyry system".

Definition q45 : TargetArea := mkTarget 5 45 45 0.9 "q45" None.
Definition q55 : TargetArea := mkTarget 6 55 55 0.7 "q55" None.

(** Press at (100, 100), move 5 pixels right, release. *)
Definition drag5 : list Event := [MouseDown 0 100 100; MouseMove 105 100; MouseUp].

Definition idle_state (sel : option Z) : HState :=
  mkHState (mkViewBox 0 0 100 100) false (0, 0) 0 sel.

Definition tD : TargetArea := mkTarget 4 3 0 1 "D" None.
Definition p0 : TargetArea := mkTarget 1 0 0 1 "p0" None.
Definition p4 : TargetArea := mkTarget 2 4 0 1 "p4" None.
Definition p8 : TargetArea := mkTarget 3 8 0 1 "p8" None.
Definition p12 : TargetArea := mkTarget 4 12 0 1 "p12" None.

Definition sample_file : UploadedFile :=
  mkUploaded "f1" SrcFile (Some (mkFileMeta "map.tif" "image/tiff")) None MAPS None None.

(** * Properties *)

Lemma sqrt_le_sq a t : 0 <= t -> sqrt a <= t -> a <= t * t.
Proof.
  intros Ht H. destruct (Rlt_le_dec a 0) as [Ha|Ha]; [nra|].
  rewrite <- (sqrt_sqrt a Ha). apply Rmult_le_compat; try apply sqrt_pos; exact H.
Qed.

Lemma sq_le_sqrt a t : 0 <= t -> a <= t * t -> sqrt a <= t.
Proof.
  intros Ht H. rewrite <- (sqrt_square t Ht). apply sqrt_le_1_alt. exact H.
Qed.

(** Fails on a term that still contains an undecided comparison. *)
Ltac no_dec t :=
  lazymatch t with
  | context [Rlt_dec _ _] => fail
  | context [Rle_dec _ _] => fail
  | context [Req_EM_T _ _] => fail
  | context [Rabs _] => fail
  | _ => idtac
  end.

(** Settles the comparisons of the code on concrete real inputs, innermost
    first. *)
Ltac rdec_step :=
  match goal with
  | |- context [Rlt_dec ?a ?b] =>
      no_dec a; no_dec b;
      destruct (Rlt_dec a b) as [?H|?H]; try (exfalso; lra)
  | |- context [Rle_dec (dist ?n ?p) ?t] =>
      let H := fresh in
      destruct (Rle_dec (dist n p) t) as [H|H];
      [ try (exfalso; unfold dist in H; cbn [x y] in H;
             apply sqrt_le_sq in H; [simpl in H; lra | lra])
      | try (exfalso; apply H; unfold dist; cbn [x y];
             apply sq_le_sqrt; [lra | simpl; lra]) ]
  | |- context [Rle_dec ?a ?b] =>
      no_dec a; no_dec b;
      destruct (Rle_dec a b) as [?H|?H]; try (exfalso; lra)
  | |- context [Req_EM_T ?a ?b] =>
      no_dec a; no_dec b;
      let H := fresh in
      destruct (Req_EM_T a b) as [H|H]; [try (exfalso; lra) | try (exfalso; apply H; lra)]
  | |- context [Rabs ?a] =>
      first [rewrite (Rabs_right a) by lra | rewrite (Rabs_left a) by lra]
  | |- context [in_dec Z.eq_dec ?k ?l] =>
      let H := fresh in
      destruct (in_dec Z.eq_dec k l) as [H|H];
      [ try (exfalso; simpl in H; intuition discriminate)
      | try (exfalso; apply H; simpl; tauto) ]
  end.

Ltac eval_clusters :=
  cbn -[Rlt_dec Rle_dec in_dec sqrt dist];
  repeat (rdec_step; cbn -[Rlt_dec Rle_dec in_dec sqrt dist]).


(** ** Clustering *)
Module Clustering.

Lemma memb_in k used : In k used -> memb k used = true.
Proof. unfold memb; destruct (in_dec Z.eq_dec k used); tauto. Qed.

Lemma memb_notin k used : ~ In k used -> memb k used = false.
Proof. unfold memb; destruct (in_dec Z.eq_dec k used); tauto. Qed.

Lemma insert_by_x_perm a l : Permutation (insert_by_x a l) (a :: l).
Proof.
  induction l as [|b l IH]; simpl; [reflexivity|].
  destruct (Rlt_dec (x a - x b) 0); [reflexivity|].
  rewrite IH. apply perm_swap.
Qed.

Lemma sort_by_x_perm_acc l acc :
  Permutation (fold_left (fun acc a => insert_by_x a acc) l acc) (l ++ acc).
Proof.
  revert acc; induction l as [|a l IH]; intros acc; simpl; [reflexivity|].
  rewrite IH, insert_by_x_perm. symmetry; apply Permutation_middle.
Qed.

Lemma sort_by_x_perm l : Permutation (sort_by_x l) l.
Proof.
  unfold sort_by_x. rewrite sort_by_x_perm_acc. rewrite app_nil_r. reflexivity.
Qed.

Lemma NoDup_map_inj {A B} (f : A -> B) (l : list A) a b :
  NoDup (map f l) -> In a l -> In b l -> f a = f b -> a = b.
Proof.
  induction l as [|c l IH]; simpl; [tauto|].
  intros Hnd Ha Hb Hab. inversion Hnd as [|? ? Hc Hnd']; subst.
  destruct Ha as [<-|Ha], Hb as [<-|Hb]; auto.
  - exfalso; apply Hc; rewrite Hab; apply in_map; exact Hb.
  - exfalso; apply Hc; rewrite <- Hab; apply in_map; exact Ha.
Qed.

Lemma filter_split_perm {A} (P Q : A -> bool) l :
  Permutation (filter P l)
    (filter (fun n => P n && Q n) l ++ filter (fun n => P n && negb (Q n)) l).
Proof.
  induction l as [|a l IH]; simpl; [reflexivity|].
  destruct (P a), (Q a); simpl; rewrite ?IH; try reflexivity.
  apply Permutation_middle.
Qed.

(** The inner loop picks the neighbours not yet used and within the
    threshold, and adds exactly their ids to [used]. *)
Lemma scan_spec threshold p rest used :
  NoDup (map id rest) ->
  fst (scan threshold p rest used)
    = filter (fun n => negb (memb (id n) used) && within threshold p n) rest /\
  (forall k, In k (snd (scan threshold p rest used))
             <-> In k used \/ In k (map id (fst (scan threshold p rest used)))).
Proof.
  revert used; induction rest as [|n rest IH]; intros used Hnd; simpl.
  - split; [reflexivity|]. intros k; simpl; tauto.
  - inversion Hnd as [|? ? Hn Hnd']; subst.
    unfold memb at 1, within at 1.
    destruct (in_dec Z.eq_dec (id n) used) as [Hu|Hu]; simpl.
    + apply IH; assumption.
    + destruct (Rle_dec (dist n p) threshold) as [Hd|Hd]; simpl.
      * destruct (IH (id n :: used) Hnd') as [Hf Hk].
        destruct (scan threshold p rest (id n :: used)) as [ms used'] eqn:E.
        simpl in *. split.
        -- f_equal. rewrite Hf. apply filter_ext_in. intros m Hm.
           unfold memb. destruct (in_dec Z.eq_dec (id m) (id n :: used)) as [H1|H1];
           destruct (in_dec Z.eq_dec (id m) used) as [H2|H2]; try reflexivity.
           ++ exfalso. destruct H1 as [H1|H1]; [|contradiction].
              apply Hn. rewrite H1. apply in_map; exact Hm.
           ++ exfalso. apply H1. right; exact H2.
        -- intros k. rewrite Hk. simpl. tauto.
      * apply IH; assumption.
Qed.

Lemma fold_left_sum (f : TargetArea -> R) l a :
  fold_left (fun sum c => sum + f c) l a = a + fold_right Rplus 0 (map f l).
Proof.
  revert a; induction l as [|c l IH]; intros a; simpl; [lra|].
  rewrite IH. lra.
Qed.

Lemma cluster_loop_shape threshold l used :
  Forall (fun c => points c <> [] /\ cx c = mean x (points c) /\ cy c = mean y (points c))
    (cluster_loop threshold l used).
Proof.
  revert used; induction l as [|p rest IH]; intros used; simpl; [constructor|].
  destruct (in_dec Z.eq_dec (id p) used); [apply IH|].
  destruct (scan threshold p rest (id p :: used)) as [ms used'].
  constructor; [|apply IH].
  simpl. unfold avg, mean. rewrite !fold_left_sum, !Rplus_0_l.
  split; [discriminate|split; reflexivity].
Qed.

Lemma cluster_loop_perm threshold l used :
  NoDup (map id l) ->
  Permutation (concat (map points (cluster_loop threshold l used)))
    (filter (fun n => negb (memb (id n) used)) l).
Proof.
  revert used; induction l as [|p rest IH]; intros used Hnd; simpl; [reflexivity|].
  inversion Hnd as [|? ? Hp Hnd']; subst.
  destruct (in_dec Z.eq_dec (id p) used) as [Hu|Hu].
  { rewrite (memb_in _ _ Hu). simpl. apply IH; assumption. }
  rewrite (memb_notin _ _ Hu). simpl.
  destruct (scan_spec threshold p rest (id p :: used) Hnd') as [Hf Hk].
  destruct (scan threshold p rest (id p :: used)) as [ms used'] eqn:E.
  simpl in *. constructor.
  (* the picked neighbours do not depend on [p]'s own id *)
  assert (Hms : ms = filter (fun n => negb (memb (id n) used) && within threshold p n) rest).
  { rewrite Hf. apply filter_ext_in. intros m Hm. unfold memb.
    destruct (in_dec Z.eq_dec (id m) (id p :: used)) as [H1|H1];
    destruct (in_dec Z.eq_dec (id m) used) as [H2|H2]; try reflexivity.
    - exfalso. destruct H1 as [H1|H1]; [|contradiction].
      apply Hp. rewrite H1. apply in_map; exact Hm.
    - exfalso. apply H1. right; exact H2. }
  (* the points left for later iterations are the others *)
  assert (Hrest : filter (fun n => negb (memb (id n) used')) rest
                  = filter (fun n => negb (memb (id n) used)
                                     && negb (within threshold p n)) rest).
  { apply filter_ext_in. intros m Hm. unfold memb.
    destruct (in_dec Z.eq_dec (id m) used') as [H1|H1];
    destruct (in_dec Z.eq_dec (id m) used) as [H2|H2]; simpl; try reflexivity.
    - apply Hk in H1. destruct H1 as [[H1|H1]|H1]; [| contradiction |].
      + exfalso. apply Hp. rewrite H1. apply in_map; exact Hm.
      + apply in_map_iff in H1. destruct H1 as [m' [Hid Hm']].
        assert (Hin := Hm'). rewrite Hms in Hin. apply filter_In in Hin.
        destruct Hin as [Hin Hw].
        assert (m' = m) by (apply (NoDup_map_inj id rest); assumption).
        subst m'. unfold memb in Hw.
        destruct (in_dec Z.eq_dec (id m) used); [contradiction|].
        simpl in Hw. rewrite Hw. reflexivity.
    - exfalso. apply H1. apply Hk. left. right. exact H2.
    - unfold within. destruct (Rle_dec (dist m p) threshold) as [Hd|Hd]; [|reflexivity].
      exfalso. apply H1. apply Hk. right. apply in_map. rewrite Hms.
      apply filter_In. split; [exact Hm|].
      unfold memb, within. destruct (in_dec Z.eq_dec (id m) used); [contradiction|].
      destruct (Rle_dec (dist m p) threshold); [reflexivity|contradiction]. }
  rewrite IH by assumption. rewrite Hrest, Hms.
  symmetry. apply filter_split_perm.
Qed.

Lemma filter_memb_nil (l : list TargetArea) :
  filter (fun n => negb (memb (id n) [])) l = l.
Proof.
  induction l as [|a l IH]; [reflexivity|]. cbn [filter].
  rewrite (memb_notin _ _ (in_nil (a := id a))). simpl. f_equal. exact IH.
Qed.


(** C1: for points with unique ids and any view box width [w], the clusters'
    member lists partition the input (their concatenation is a permutation
    of it, so every point is in exactly one cluster, once), every cluster is
    non-empty, and its centre is the mean of its members' [x] and of their
    [y]. *)
Theorem clusters_partition (w : R) (P : list TargetArea) :
  NoDup (map id P) ->
  Permutation (concat (map points (clusters w P))) P /\
  Forall cluster_ok (clusters w P).
Proof.
  intros Hnd. unfold clusters. split.
  - rewrite cluster_loop_perm.
    + rewrite filter_memb_nil. apply sort_by_x_perm.
    + apply (Permutation_NoDup (l := map id P)); [|exact Hnd].
      apply Permutation_map. symmetry. apply sort_by_x_perm.
  - apply cluster_loop_shape.
Qed.

Lemma NoDup_ids_ABC : NoDup (map id [tA; tB; tC]).
Proof.
  simpl. repeat constructor; simpl; intros H; repeat destruct H as [H|H]; discriminate || contradiction.
Qed.

Lemma clusters_partition_witness :
  NoDup (map id [tA; tB; tC]) /\
  Permutation (concat (map points (clusters 100 [tA; tB; tC]))) [tA; tB; tC] /\
  Forall cluster_ok (clusters 100 [tA; tB; tC]).
Proof.
  split; [exact NoDup_ids_ABC|].
  apply (clusters_partition 100 [tA; tB; tC]). exact NoDup_ids_ABC.
Defined.

Lemma HdRel_insert a b l :
  HdRel xle b l -> x b <= x a -> HdRel xle b (insert_by_x a l).
Proof.
  intros Hb Hba. destruct l as [|c l]; simpl.
  - constructor. exact Hba.
  - destruct (Rlt_dec (x a - x c) 0); constructor; [exact Hba|].
    inversion Hb; assumption.
Qed.

Lemma insert_by_x_sorted a l : Sorted xle l -> Sorted xle (insert_by_x a l).
Proof.
  induction l as [|b l IH]; intros Hs; simpl.
  - repeat constructor.
  - destruct (Rlt_dec (x a - x b) 0) as [H|H].
    + constructor; [exact Hs|]. constructor. unfold xle. lra.
    + inversion Hs as [|? ? Hl Hb]; subst. constructor; [apply IH; exact Hl|].
      apply HdRel_insert; [exact Hb|lra].
Qed.

Lemma sort_by_x_sorted l : Sorted xle (sort_by_x l).
Proof.
  unfold sort_by_x. assert (Hacc : Sorted xle (@nil TargetArea)) by constructor.
  revert Hacc. generalize (@nil TargetArea). induction l as [|a l IH]; intros acc Hacc; simpl.
  - exact Hacc.
  - apply IH. apply insert_by_x_sorted. exact Hacc.
Qed.

Lemma sorted_strict l : Sorted xle l -> NoDup (map x l) -> Sorted xlt l.
Proof.
  induction l as [|a l IH]; intros Hs Hnd; [constructor|].
  inversion Hs as [|? ? Hl Ha]; subst. inversion Hnd as [|? ? Hx Hnd']; subst.
  constructor; [apply IH; assumption|].
  destruct l as [|b l]; constructor. inversion Ha; subst. unfold xle, xlt in *.
  destruct (Rle_lt_or_eq_dec _ _ H0) as [?|Heq]; [assumption|].
  exfalso. apply Hx. rewrite Heq. left. reflexivity.
Qed.

Lemma strongly_sorted_perm_eq l1 l2 :
  StronglySorted xlt l1 -> StronglySorted xlt l2 -> Permutation l1 l2 -> l1 = l2.
Proof.
  revert l2; induction l1 as [|a l1 IH]; intros l2 H1 H2 Hp.
  - symmetry. apply Permutation_nil. exact Hp.
  - destruct l2 as [|b l2]; [apply Permutation_sym, Permutation_nil in Hp; discriminate|].
    apply StronglySorted_inv in H1 as [H1 Ha1]. apply StronglySorted_inv in H2 as [H2 Hb2].
    assert (Ha : In a (b :: l2)) by (apply (Permutation_in a Hp); left; reflexivity).
    assert (Hb : In b (a :: l1)) by (apply (Permutation_in b (Permutation_sym Hp)); left; reflexivity).
    destruct Ha as [<-|Ha].
    + f_equal. apply IH; [assumption|assumption|]. apply Permutation_cons_inv in Hp. exact Hp.
    + destruct Hb as [<-|Hb].
      * f_equal. apply IH; [assumption|assumption|]. apply Permutation_cons_inv in Hp. exact Hp.
      * exfalso. rewrite Forall_forall in Ha1, Hb2.
        specialize (Ha1 b Hb). specialize (Hb2 a Ha). unfold xlt in *. lra.
Qed.

Lemma sort_by_x_strict l : NoDup (map x l) -> StronglySorted xlt (sort_by_x l).
Proof.
  intros Hnd. apply Sorted_StronglySorted.
  - intros a b c; unfold xlt; lra.
  - apply sorted_strict; [apply sort_by_x_sorted|].
    apply (Permutation_NoDup (l := map x l)); [|exact Hnd].
    apply Permutation_map. symmetry. apply sort_by_x_perm.
Qed.

(** C2 (amended): for a permutation [Q] of [P] in which no two points share
    an [x] coordinate, clustering [Q] gives exactly the clusters of [P]. *)
Theorem clusters_perm_distinct_x (w : R) (P Q : list TargetArea) :
  Permutation P Q -> NoDup (map x P) -> clusters w P = clusters w Q.
Proof.
  intros Hp Hnd. unfold clusters. f_equal.
  apply strongly_sorted_perm_eq.
  - apply sort_by_x_strict. exact Hnd.
  - apply sort_by_x_strict. apply (Permutation_NoDup (l := map x P)); [|exact Hnd].
    apply Permutation_map. exact Hp.
  - rewrite (sort_by_x_perm P), (sort_by_x_perm Q). exact Hp.
Qed.

Lemma clusters_perm_distinct_x_witness :
  Permutation [tA; tD] [tD; tA] /\ NoDup (map x [tA; tD]) /\
  clusters 100 [tA; tD] = clusters 100 [tD; tA].
Proof.
  assert (Hp : Permutation [tA; tD] [tD; tA]) by apply perm_swap.
  assert (Hnd : NoDup (map x [tA; tD])).
  { simpl. constructor; [simpl; intros [H|H]; [lra|contradiction]|].
    constructor; [simpl; tauto|constructor]. }
  split; [exact Hp|split; [exact Hnd|]].
  apply (clusters_perm_distinct_x 100 [tA; tD] [tD; tA]); assumption.
Defined.

(** C2 (counterexample): three points on the line [x = 0]; swapping the first
    two changes the seed, and with it the cluster membership. *)
Lemma clusters_order_dependent :
  Permutation [tA; tB; tC] [tB; tA; tC] /\
  map points (clusters 100 [tA; tB; tC]) = [[tA; tB]; [tC]] /\
  map points (clusters 100 [tB; tA; tC]) = [[tB; tA; tC]].
Proof.
  split; [apply perm_swap|split].
  - unfold clusters, sort_by_x, tA, tB, tC. eval_clusters. reflexivity.
  - unfold clusters, sort_by_x, tA, tB, tC. eval_clusters. reflexivity.
Qed.

(** C3 (amended): with unique ids, the cluster seeded by the leftmost point
    only grows with the view box width. *)
Theorem first_cluster_monotone (w1 w2 : R) (P : list TargetArea) :
  NoDup (map id P) -> w1 <= w2 -> incl (first_members w1 P) (first_members w2 P).
Proof.
  intros Hnd Hw. unfold first_members, clusters.
  assert (Hs : NoDup (map id (sort_by_x P))).
  { apply (Permutation_NoDup (l := map id P)); [|exact Hnd].
    apply Permutation_map. symmetry. apply sort_by_x_perm. }
  destruct (sort_by_x P) as [|p rest]; simpl; [apply incl_refl|].
  inversion Hs as [|? ? _ Hrest]; subst.
  destruct (scan_spec (w1 * 0.08) p rest [id p] Hrest) as [H1 _].
  destruct (scan_spec (w2 * 0.08) p rest [id p] Hrest) as [H2 _].
  destruct (scan (w1 * 0.08) p rest [id p]) as [ms1 u1].
  destruct (scan (w2 * 0.08) p rest [id p]) as [ms2 u2].
  simpl in *. subst ms1 ms2.
  apply incl_cons; [left; reflexivity|]. intros n Hn. right.
  apply filter_In in Hn as [Hin Hf]. apply filter_In. split; [exact Hin|].
  apply andb_true_iff in Hf as [Hm Hwi]. rewrite Hm. simpl.
  unfold within in *. destruct (Rle_dec (dist n p) (w1 * 0.08)); [|discriminate].
  destruct (Rle_dec (dist n p) (w2 * 0.08)); [reflexivity|lra].
Qed.

Lemma NoDup_ids_line : NoDup (map id [p0; p4; p8; p12]).
Proof.
  simpl. repeat constructor; simpl; intros H; repeat destruct H as [H|H]; discriminate || contradiction.
Qed.

Lemma first_cluster_monotone_witness :
  NoDup (map id [p0; p4; p8; p12]) /\ 50 <= 100 /\
  incl (first_members 50 [p0; p4; p8; p12]) (first_members 100 [p0; p4; p8; p12]).
Proof.
  split; [exact NoDup_ids_line|split; [lra|]].
  apply (first_cluster_monotone 50 100 [p0; p4; p8; p12]); [exact NoDup_ids_line|lra].
Defined.

(** C3 (counterexample): four points 4 apart on a line.  At width 50
    (threshold 4) they form two pairs, 4 merged points; at width 100
    (threshold 8) the first seed takes three and leaves the last alone, 3
    merged points. *)
Lemma merged_count_not_monotone :
  50 <= 100 /\
  merged_count 50 [p0; p4; p8; p12] = 4%nat /\
  merged_count 100 [p0; p4; p8; p12] = 3%nat.
Proof.
  split; [lra|split].
  - unfold merged_count, clusters, sort_by_x, p0, p4, p8, p12. eval_clusters. reflexivity.
  - unfold merged_count, clusters, sort_by_x, p0, p4, p8, p12. eval_clusters. reflexivity.
Qed.

End Clustering.

(** ** The density grid *)
Module Density.

Lemma nth_error_grid {A} (g : nat -> nat -> A) (m n s i j : nat) :
  (i < n)%nat -> (j < m)%nat ->
  nth_error (flat_map (fun i => map (g i) (seq 0 m)) (seq s n)) (i * m + j)
  = Some (g (s + i)%nat j).
Proof.
  revert s i; induction n as [|n IH]; intros s i Hi Hj; [lia|].
  simpl. destruct i as [|i].
  - rewrite nth_error_app1 by (rewrite length_map, length_seq; lia).
    rewrite nth_error_map, nth_error_seq.
    simpl. destruct (Nat.ltb_spec j m); [|lia]. simpl. do 2 f_equal; lia.
  - rewrite nth_error_app2 by (rewrite length_map, length_seq; lia).
    rewrite length_map, length_seq.
    replace (S i * m + j - m)%nat with (i * m + j)%nat by lia.
    rewrite IH by lia. do 2 f_equal. lia.
Qed.

Lemma length_grid {A} (g : nat -> nat -> A) (m n s : nat) :
  length (flat_map (fun i => map (g i) (seq 0 m)) (seq s n)) = (n * m)%nat.
Proof.
  revert s; induction n as [|n IH]; intros s; simpl; [reflexivity|].
  rewrite length_app, length_map, length_seq, IH. reflexivity.
Qed.

Lemma INR_gridSize : INR gridSize = 30.
Proof. unfold gridSize. simpl. lra. Qed.

Lemma fold_left_influence cx0 cy0 (P : list TargetArea) a :
  fold_left (fun acc target => acc + influence cx0 cy0 target) P a
  = a + fold_right Rplus 0 (map (influence cx0 cy0) P).
Proof.
  revert a; induction P as [|t P IH]; intros a; simpl; [lra|].
  rewrite IH. lra.
Qed.

(** [dist * dist] is the squared distance. *)
Lemma influence_spec cx0 cy0 t :
  influence cx0 cy0 t
  = probability t * exp (- ((cx0 - x t) ^ 2 + (cy0 - y t) ^ 2) / 100).
Proof.
  unfold influence. rewrite sqrt_sqrt; [|apply Rplus_le_le_0_compat; apply pow2_ge_0].
  reflexivity.
Qed.

Lemma sum_influence_spec cx0 cy0 P :
  fold_right Rplus 0 (map (influence cx0 cy0) P)
  = fold_right Rplus 0
      (map (fun t => probability t * exp (- ((cx0 - x t) ^ 2 + (cy0 - y t) ^ 2) / 100)) P).
Proof.
  induction P as [|t P IH]; simpl; [reflexivity|]. rewrite IH, influence_spec. reflexivity.
Qed.

Lemma cell_at_intensity vb P i j :
  intensity (cell_at vb P i j) = spec_intensity (center_x vb i) (center_y vb j) P.
Proof.
  unfold cell_at, spec_intensity, center_x, center_y. cbn [intensity].
  rewrite fold_left_influence, Rplus_0_l, sum_influence_spec, INR_gridSize, Rmin_comm.
  f_equal. f_equal. apply map_ext. intros t.
  replace (vx vb + INR i * (vw vb / 30) + vw vb / 30 / 2)
    with (vx vb + (INR i + / 2) * (vw vb / 30)) by lra.
  replace (vy vb + INR j * (vh vb / 30) + vh vb / 30 / 2)
    with (vy vb + (INR j + / 2) * (vh vb / 30)) by lra.
  reflexivity.
Qed.

Lemma sum_nonneg (l : list R) : Forall (fun r => 0 <= r) l -> 0 <= fold_right Rplus 0 l.
Proof.
  induction 1; simpl; lra.
Qed.

Lemma sum_ge_member (l : list R) r :
  Forall (fun r => 0 <= r) l -> In r l -> r <= fold_right Rplus 0 l.
Proof.
  induction 1 as [|a l Ha Hl IH]; simpl; [tauto|].
  intros [<-|Hr].
  - pose proof (sum_nonneg l Hl). lra.
  - specialize (IH Hr). lra.
Qed.

Lemma terms_nonneg px py (P : list TargetArea) :
  Forall (fun t => 0 <= probability t <= 1) P ->
  Forall (fun r => 0 <= r)
    (map (fun t => probability t * exp (- ((px - x t) ^ 2 + (py - y t) ^ 2) / 100)) P).
Proof.
  intros H. apply Forall_map. apply (Forall_impl _ (P := fun t => 0 <= probability t <= 1)); [|exact H].
  intros t Ht. apply Rmult_le_pos; [lra|]. left. apply exp_pos.
Qed.

Lemma in_cells vb P c :
  In c (cells vb P) -> exists i j, (i < 30)%nat /\ (j < 30)%nat /\ c = cell_at vb P i j.
Proof.
  unfold cells. intros Hc. apply in_flat_map in Hc as [i [Hi Hc]].
  apply in_map_iff in Hc as [j [<- Hj]].
  apply in_seq in Hi, Hj. unfold gridSize in *. exists i, j. repeat split; lia.
Qed.

(** C4: the grid has 900 cells; cell [(i, j)] (at index [30 i + j]) has the
    intensity [min(1, sum of probability * exp(-d^2/100))] of its centre;
    for probabilities in [[0,1]] every intensity is in [[0,1]], a cell whose
    centre is a point of probability 1 has intensity 1, and with no points
    every intensity is 0. *)
Theorem cells_spec (vb : ViewBox) (P : list TargetArea) :
  Forall (fun t => 0 <= probability t <= 1) P ->
  length (cells vb P) = 900%nat /\
  (forall i j, (i < 30)%nat -> (j < 30)%nat ->
     nth_error (cells vb P) (i * 30 + j) = Some (cell_at vb P i j) /\
     intensity (cell_at vb P i j) = spec_intensity (center_x vb i) (center_y vb j) P) /\
  (forall c, In c (cells vb P) -> 0 <= intensity c <= 1) /\
  (forall i j t, (i < 30)%nat -> (j < 30)%nat -> In t P -> probability t = 1 ->
     x t = center_x vb i -> y t = center_y vb j ->
     intensity (cell_at vb P i j) = 1) /\
  (forall c, In c (cells vb []) -> intensity c = 0).
Proof.
  intros HP. split; [|split; [|split; [|split]]].
  - unfold cells. rewrite length_grid. reflexivity.
  - intros i j Hi Hj. split; [|apply cell_at_intensity].
    unfold cells. rewrite nth_error_grid by (unfold gridSize; lia). reflexivity.
  - intros c Hc. apply in_cells in Hc as [i [j [_ [_ ->]]]].
    rewrite cell_at_intensity. unfold spec_intensity.
    pose proof (sum_nonneg _ (terms_nonneg (center_x vb i) (center_y vb j) P HP)).
    unfold Rmin. destruct (Rle_dec 1 _); lra.
  - intros i j t Hi Hj Ht Hp Hx Hy. rewrite cell_at_intensity. unfold spec_intensity.
    assert (Hge : 1 <= fold_right Rplus 0
      (map (fun t => probability t * exp (- ((center_x vb i - x t) ^ 2
                                            + (center_y vb j - y t) ^ 2) / 100)) P)).
    { replace 1 with (probability t * exp (- ((center_x vb i - x t) ^ 2
                                            + (center_y vb j - y t) ^ 2) / 100)).
      - apply sum_ge_member; [apply terms_nonneg; exact HP|].
        apply in_map_iff. exists t. split; [reflexivity|exact Ht].
      - rewrite Hp, <- Hx, <- Hy. replace (- ((x t - x t) ^ 2 + (y t - y t) ^ 2) / 100) with 0
          by (simpl; field). rewrite exp_0. lra. }
    unfold Rmin. destruct (Rle_dec 1 _); lra.
  - intros c Hc. apply in_cells in Hc as [i [j [_ [_ ->]]]].
    rewrite cell_at_intensity. unfold spec_intensity. simpl.
    unfold Rmin. destruct (Rle_dec 1 0); lra.
Qed.

Lemma cells_spec_witness :
  Forall (fun t => 0 <= probability t <= 1) [tA] /\
  (let vb := mkViewBox 0 0 100 100 in
   length (cells vb [tA]) = 900%nat /\
   (forall i j, (i < 30)%nat -> (j < 30)%nat ->
      nth_error (cells vb [tA]) (i * 30 + j) = Some (cell_at vb [tA] i j) /\
      intensity (cell_at vb [tA] i j) = spec_intensity (center_x vb i) (center_y vb j) [tA]) /\
   (forall c, In c (cells vb [tA]) -> 0 <= intensity c <= 1) /\
   (forall i j t, (i < 30)%nat -> (j < 30)%nat -> In t [tA] -> probability t = 1 ->
      x t = center_x vb i -> y t = center_y vb j ->
      intensity (cell_at vb [tA] i j) = 1) /\
   (forall c, In c (cells vb []) -> intensity c = 0)).
Proof.
  assert (H : Forall (fun t => 0 <= probability t <= 1) [tA]).
  { constructor; [simpl; lra|constructor]. }
  split; [exact H|]. exact (cells_spec (mkViewBox 0 0 100 100) [tA] H).
Defined.

End Density.

(** ** Panning ([handleMouseMove]) *)
Module Pan.

(** C5: a mouse move during a drag moves the origin by the pixel delta times
    [extent / container extent] (against the move, so that the content
    follows the cursor), keeps width and height, clamps nothing, and the data
    point that was under the cursor is under it after the move. *)
Theorem pan_translates (width height clientX clientY : R) (s : HState) :
  isDragging s = true -> 0 < width -> 0 < height ->
  let dx := clientX - fst (dragStart s) in
  let dy := clientY - snd (dragStart s) in
  let s' := handleMouseMove width height clientX clientY s in
  viewBox s' = mkViewBox (vx (viewBox s) - dx * (vw (viewBox s) / width))
                         (vy (viewBox s) - dy * (vh (viewBox s) / height))
                         (vw (viewBox s)) (vh (viewBox s)) /\
  (forall left top,
     to_data_x (viewBox s') width (clientX - left)
       = to_data_x (viewBox s) width (fst (dragStart s) - left) /\
     to_data_y (viewBox s') height (clientY - top)
       = to_data_y (viewBox s) height (snd (dragStart s) - top)).
Proof.
  intros Hd Hw Hh dx dy s'.
  assert (Hvb : viewBox s' = mkViewBox (vx (viewBox s) - dx * (vw (viewBox s) / width))
                         (vy (viewBox s) - dy * (vh (viewBox s) / height))
                         (vw (viewBox s)) (vh (viewBox s))).
  { subst s'. unfold handleMouseMove. rewrite Hd. simpl negb. cbv iota.
    fold dx dy. unfold is_zero.
    destruct (Req_EM_T dx 0) as [Hx|Hx]; destruct (Req_EM_T dy 0) as [Hy|Hy]; simpl;
      try reflexivity.
    rewrite Hx, Hy. destruct (viewBox s) as [a b c d]. simpl. f_equal; lra. }
  split; [exact Hvb|]. intros left top. unfold to_data_x, to_data_y. rewrite Hvb. simpl.
  subst dx dy. split; field; lra.
Qed.

Lemma pan_translates_witness :
  isDragging dragging_state = true /\ 0 < 800 /\ 0 < 400 /\
  (let dx := 50 - fst (dragStart dragging_state) in
   let dy := 60 - snd (dragStart dragging_state) in
   let s' := handleMouseMove 800 400 50 60 dragging_state in
   viewBox s' = mkViewBox (vx (viewBox dragging_state) - dx * (vw (viewBox dragging_state) / 800))
                          (vy (viewBox dragging_state) - dy * (vh (viewBox dragging_state) / 400))
                          (vw (viewBox dragging_state)) (vh (viewBox dragging_state)) /\
   (forall left top,
      to_data_x (viewBox s') 800 (50 - left)
        = to_data_x (viewBox dragging_state) 800 (fst (dragStart dragging_state) - left) /\
      to_data_y (viewBox s') 400 (60 - top)
        = to_data_y (viewBox dragging_state) 400 (snd (dragStart dragging_state) - top))).
Proof.
  split; [reflexivity|split; [lra|split; [lra|]]].
  apply (pan_translates 800 400 50 60 dragging_state); [reflexivity|lra|lra].
Defined.

End Pan.

(** ** Step zoom ([handleZoom]) *)
Module StepZoom.

Lemma base_100 : getBaseViewBox 100 100 = mkViewBox 0 0 100 100.
Proof.
  unfold getBaseViewBox. destruct (Rlt_dec 1 (100 / 100)) as [H|H].
  - exfalso. unfold Rdiv in H. rewrite Rinv_r in H; lra.
  - simpl. unfold Rdiv. rewrite Rinv_r by lra. f_equal; lra.
Qed.

(** C6 (counterexample): a zoom out by 1.33 from a rectangle of width 80
    below the base width 100 overshoots the base and returns the base
    rectangle, not the rectangle scaled about its centre; and a zoom in of a
    rectangle panned far to the right is not clamped back into the base
    rectangle widened by half its extent. *)
Lemma handleZoom_not_scaled_nor_clamped :
  handleZoom 100 100 1.33 (mkViewBox 10 10 80 80) = mkViewBox 0 0 100 100 /\
  vw (handleZoom 100 100 1.33 (mkViewBox 10 10 80 80)) <> 80 * 1.33 /\
  handleZoom 100 100 0.75 (mkViewBox 1000 0 50 50) = mkViewBox 1006.25 6.25 37.5 37.5 /\
  1006.25 + 37.5 > vx (getBaseViewBox 100 100) + vw (getBaseViewBox 100 100)
                   + vw (getBaseViewBox 100 100) * 0.5.
Proof.
  unfold handleZoom. rewrite base_100. simpl.
  split; [|split; [|split]].
  - destruct (Rlt_dec 100 (80 * 1.33)); [reflexivity|lra].
  - destruct (Rlt_dec 100 (80 * 1.33)); simpl; lra.
  - destruct (Rlt_dec 100 (50 * 0.75)); [lra|].
    destruct (Rlt_dec (50 * 0.75) 2); [lra|]. f_equal; lra.
  - lra.
Qed.

(** C6 (amended): the step zoom returns the base rectangle whenever the
    scaled width exceeds the base width (in particular for a zoom out at or
    above the base width), else returns the rectangle unchanged when the
    scaled width is below 2, and otherwise scales width and height by the
    factor about the rectangle's own centre, with no clamping of the
    origin. *)
Theorem handleZoom_spec (width height factor : R) (prev : ViewBox) :
  let base := getBaseViewBox width height in
  let newW := vw prev * factor in
  let r := handleZoom width height factor prev in
  (vw base < newW -> r = base) /\
  (1 < factor -> vw base <= vw prev -> 0 < vw prev -> r = base) /\
  (newW <= vw base -> newW < 2 -> r = prev) /\
  (newW <= vw base -> 2 <= newW ->
     r = mkViewBox (vx prev + (vw prev - newW) / 2) (vy prev + (vh prev - vh prev * factor) / 2)
                   newW (vh prev * factor) /\
     vx r + vw r / 2 = vx prev + vw prev / 2 /\
     vy r + vh r / 2 = vy prev + vh prev / 2).
Proof.
  intros base newW r. subst r. unfold handleZoom. fold base newW.
  split; [|split; [|split]].
  - intros H. destruct (Rlt_dec (vw base) newW); [reflexivity|contradiction].
  - intros Hf Hb Hp. destruct (Rlt_dec (vw base) newW) as [|H]; [reflexivity|].
    exfalso. apply H. subst newW. nra.
  - intros H1 H2. destruct (Rlt_dec (vw base) newW); [lra|].
    destruct (Rlt_dec newW 2); [reflexivity|contradiction].
  - intros H1 H2. destruct (Rlt_dec (vw base) newW); [lra|].
    destruct (Rlt_dec newW 2); [lra|]. simpl. repeat split; lra.
Qed.

End StepZoom.

(** ** Target description update ([handleUpdateTargetDescription]) *)
Module Update.

(** C10: the update replaces only the description of the targets whose id
    matches: other targets, the other fields of a matched target and the
    other fields of the result are unchanged, and without a match the target
    list is unchanged. *)
Theorem update_frame (r : PredictionResult) (tid : Z) (newDescription : string) :
  exists r',
    handleUpdateTargetDescription (Some r) tid newDescription = Some r' /\
    porphyryPotential r' = porphyryPotential r /\
    epithermalPotential r' = epithermalPotential r /\
    confidenceScore r' = confidenceScore r /\
    alterationMinerals r' = alterationMinerals r /\
    zones r' = zones r /\
    recommendedActions r' = recommendedActions r /\
    prediction_reasoning r' = prediction_reasoning r /\
    length (targetAreas r') = length (targetAreas r) /\
    (forall k t, nth_error (targetAreas r) k = Some t ->
       exists t', nth_error (targetAreas r') k = Some t' /\
         id t' = id t /\ x t' = x t /\ y t' = y t /\
         probability t' = probability t /\ reasoning t' = reasoning t /\
         (id t = tid -> description t' = newDescription) /\
         (id t <> tid -> t' = t)) /\
    (Forall (fun t => id t <> tid) (targetAreas r) -> targetAreas r' = targetAreas r).
Proof.
  eexists. split; [reflexivity|]. simpl.
  do 7 (split; [reflexivity|]).
  split; [apply length_map|]. split.
  - intros k t Hk. rewrite nth_error_map, Hk. simpl. eexists. split; [reflexivity|].
    destruct (Z.eqb_spec (id t) tid) as [He|He]; simpl;
      repeat split; try reflexivity; intros; try contradiction; try reflexivity.
  - intros Hall. induction (targetAreas r) as [|t l IH]; [reflexivity|].
    inversion Hall as [|? ? Ht Hl]; subst. simpl.
    destruct (Z.eqb_spec (id t) tid); [contradiction|]. f_equal. apply IH; exact Hl.
Qed.

End Update.

(** ** Division by zero in the view box computations (binary64) *)
Module DivByZero.
Import Floats.PrimFloat Floats.SpecFloat Floats.FloatOps Floats.FloatAxioms Float64.
Local Open Scope float_scope.

(** C8 (counterexample): with a container of height 0 the base rectangle
    already has an infinite width and origin. *)
Lemma base_viewbox_not_finite : finiteF (getBaseViewBox 800 0) = false.
Proof. vm_compute. reflexivity. Qed.

Lemma sf_pos (x : float) : (0 <? x) = true ->
  (exists m e, Prim2SF x = S754_finite false m e) \/ Prim2SF x = S754_infinity false.
Proof.
  rewrite ltb_spec. change (Prim2SF 0) with (S754_zero false).
  destruct (Prim2SF x) as [[]|[]| |[] m e]; simpl; intros H; try discriminate; eauto.
Qed.

Lemma sf_neg (x : float) : (x <? 0) = true ->
  (exists m e, Prim2SF x = S754_finite true m e) \/ Prim2SF x = S754_infinity true.
Proof.
  rewrite ltb_spec. change (Prim2SF 0) with (S754_zero false).
  destruct (Prim2SF x) as [[]|[]| |[] m e]; simpl; intros H; try discriminate; eauto.
Qed.

Lemma sf_finite (x : float) : finite x = true ->
  (exists s, Prim2SF x = S754_zero s) \/ (exists s m e, Prim2SF x = S754_finite s m e).
Proof.
  unfold finite, is_nan, is_infinity. rewrite !eqb_spec, abs_spec.
  change (Prim2SF infinity) with (S754_infinity false).
  destruct (Prim2SF x) as [[]|[]| |[] m e]; simpl; intros H; try discriminate; eauto 6.
Qed.

Lemma sf_zero (x : float) : is_zero x = true -> exists s, Prim2SF x = S754_zero s.
Proof.
  unfold is_zero. rewrite eqb_spec. change (Prim2SF zero) with (S754_zero false).
  destruct (Prim2SF x) as [[]|[]| |[] m e]; simpl; intros H; try discriminate; eauto.
Qed.

Lemma div_zero_pos (x : float) : (0 <? x) = true -> x / 0 = infinity.
Proof.
  intros H. apply Prim2SF_inj. rewrite div_spec. change (Prim2SF 0) with (S754_zero false).
  change (Prim2SF infinity) with (S754_infinity false).
  destruct (sf_pos x H) as [(m & e & ->) | ->]; reflexivity.
Qed.

Lemma div_zero_neg (x : float) : (x <? 0) = true -> x / 0 = neg_infinity.
Proof.
  intros H. apply Prim2SF_inj. rewrite div_spec. change (Prim2SF 0) with (S754_zero false).
  change (Prim2SF neg_infinity) with (S754_infinity true).
  destruct (sf_neg x H) as [(m & e & ->) | ->]; reflexivity.
Qed.

Lemma base_zero_height (w : float) : (0 <? w) = true -> getBaseViewBox w 0 = getBaseViewBox 1 0.
Proof.
  intros H. unfold getBaseViewBox. rewrite (div_zero_pos w H), (div_zero_pos 1 eq_refl).
  reflexivity.
Qed.

Lemma svgX_inf (vb : ViewBoxF) (mx : float) (s : bool) :
  finite (fx vb) = true -> (0 <? fw vb) = true -> finite (fw vb) = true ->
  Prim2SF (mx / 0) = S754_infinity s -> Prim2SF (svgX vb mx 0) = S754_infinity s.
Proof.
  intros Hx Hp Hw Hd. unfold svgX. rewrite add_spec, mul_spec, Hd.
  destruct (sf_pos _ Hp) as [(m & e & Hm) | Hm];
    [|destruct (sf_finite _ Hw) as [[s' H']|(s' & m' & e' & H')]; congruence].
  rewrite Hm. destruct s; cbn;
  destruct (sf_finite _ Hx) as [[s' ->]|(s' & m' & e' & ->)]; reflexivity.
Qed.

(** C8 (amended): no division is guarded.  With a container of height 0
    and any positive width, [aspect] is +Infinity, the base rectangle's width
    is +Infinity and its x is -Infinity; with both dimensions 0, [aspect] is
    NaN and the base height and y are NaN.  With a container width of 0, the
    pixel-to-data projection of a view box with finite x and a finite positive
    width is NaN at pointer offset 0 (either sign), +Infinity at a positive
    offset and -Infinity at a negative one. *)
Theorem unguarded_division (w mx : float) (vb : ViewBoxF) :
  (0 <? w) = true -> finite (fx vb) = true -> finite (fw vb) = true -> (0 <? fw vb) = true ->
  fw (getBaseViewBox w 0) = infinity /\ fx (getBaseViewBox w 0) = neg_infinity /\
  is_nan (fh (getBaseViewBox 0 0)) = true /\ is_nan (fy (getBaseViewBox 0 0)) = true /\
  (is_zero mx = true -> is_nan (svgX vb mx 0) = true) /\
  ((0 <? mx) = true -> svgX vb mx 0 = infinity) /\
  ((mx <? 0) = true -> svgX vb mx 0 = neg_infinity).
Proof.
  intros Hw Hx Hfw Hpw. rewrite (base_zero_height w Hw).
  split; [vm_compute; reflexivity|]. split; [vm_compute; reflexivity|].
  split; [vm_compute; reflexivity|]. split; [vm_compute; reflexivity|].
  split; [|split].
  - intros Hz. destruct (sf_zero mx Hz) as [s Hs]. unfold is_nan. rewrite eqb_spec.
    unfold svgX. rewrite add_spec, mul_spec, div_spec, Hs.
    change (Prim2SF 0) with (S754_zero false).
    destruct (Prim2SF (fx vb)), (Prim2SF (fw vb)), s; reflexivity.
  - intros Hm. apply Prim2SF_inj. apply svgX_inf; try assumption.
    rewrite (div_zero_pos mx Hm). reflexivity.
  - intros Hm. apply Prim2SF_inj. apply svgX_inf; try assumption.
    rewrite (div_zero_neg mx Hm). reflexivity.
Qed.

Lemma unguarded_division_witness :
  (0 <? 800) = true /\ finite (fx (getBaseViewBox 800 400)) = true /\
  finite (fw (getBaseViewBox 800 400)) = true /\ (0 <? fw (getBaseViewBox 800 400)) = true /\
  (fw (getBaseViewBox 800 0) = infinity /\ fx (getBaseViewBox 800 0) = neg_infinity /\
   is_nan (fh (getBaseViewBox 0 0)) = true /\ is_nan (fy (getBaseViewBox 0 0)) = true /\
   (is_zero 30 = true -> is_nan (svgX (getBaseViewBox 800 400) 30 0) = true) /\
   ((0 <? 30) = true -> svgX (getBaseViewBox 800 400) 30 0 = infinity) /\
   ((30 <? 0) = true -> svgX (getBaseViewBox 800 400) 30 0 = neg_infinity)).
Proof.
  split; [vm_compute; reflexivity|]. split; [vm_compute; reflexivity|].
  split; [vm_compute; reflexivity|]. split; [vm_compute; reflexivity|].
  apply (unguarded_division 800 30 (getBaseViewBox 800 400));
    vm_compute; reflexivity.
Defined.

End DivByZero.

(** ** Cluster drill-down ([handleClusterClick]) *)
Module DrillDown.

(** C7 (failing input): in an 800 x 400 container (aspect 2), activating
    the cluster of the targets at (45, 45) and (55, 55) (one cluster at the
    base view, whose threshold is 16) sets the view box
    [{x = 42.5, y = 42.5, w = 30, h = 15}]: its origin is computed for the
    square side [dim = 15] before the width is widened to [15 * aspect], so
    its centre is (57.5, 50), not the bounding-box centre (50, 50). *)
Lemma drillDown_off_centre :
  drillDown 800 400 [q45; q55] = mkViewBox 42.5 42.5 30 15 /\
  vx (drillDown 800 400 [q45; q55]) + vw (drillDown 800 400 [q45; q55]) / 2 = 57.5 /\
  vy (drillDown 800 400 [q45; q55]) + vh (drillDown 800 400 [q45; q55]) / 2 = 50.
Proof.
  assert (H : drillDown 800 400 [q45; q55] = mkViewBox 42.5 42.5 30 15).
  { unfold drillDown, bbox_step, q45, q55, Rmax. cbn -[Rlt_dec Rle_dec Req_EM_T].
    repeat (rdec_step; cbn -[Rlt_dec Rle_dec Req_EM_T]). f_equal; lra. }
  rewrite H. simpl. split; [reflexivity|split; lra].
Qed.

End DrillDown.

(** ** Click versus drag *)
Module Gesture.

(** C9 (failing input): after a press, a 5-pixel move and a release, the
    accumulated displacement is 5; a click on a single-point cluster still
    selects its target ([5 > 5] is false), while a click on empty space is
    not treated as a click ([5 < 5] is false) and keeps the selection. *)
Lemma click_after_5px :
  dragDistance (run 800 400 drag5 (idle_state None)) = 5 /\
  selectedTargetId (run 800 400 (drag5 ++ [ClickCluster (make_cluster tC [tC])])
                      (idle_state None)) = Some 3%Z /\
  selectedTargetId (run 800 400 (drag5 ++ [ClickEmpty]) (idle_state (Some 1%Z)))
    = Some 1%Z.
Proof.
  unfold run, drag5, idle_state. simpl fold_left.
  unfold dispatch, handleMouseDown, handleMouseMove, handleMouseUp, handleClusterClick,
    handleContainerClick, is_zero.
  cbn -[Rlt_dec Rle_dec Req_EM_T Rabs].
  repeat (rdec_step; cbn -[Rlt_dec Rle_dec Req_EM_T Rabs]).
  repeat split; lra.
Qed.

End Gesture.


Module ViewInv.

Lemma base_facts width height : 0 < width -> 0 < height ->
  100 <= vw (getBaseViewBox width height) /\ 0 < vh (getBaseViewBox width height) /\
  vw (getBaseViewBox width height) = (width / height) * vh (getBaseViewBox width height).
Proof.
  intros Hw Hh. assert (Ha : 0 < width / height) by (apply Rdiv_lt_0_compat; lra).
  unfold getBaseViewBox. destruct (Rlt_dec 1 (width / height)) as [H|H]; simpl.
  - repeat split; lra.
  - repeat split; [lra | apply Rdiv_lt_0_compat; lra | field; lra].
Qed.

Ltac split_lt :=
  match goal with
  | |- context [Rlt_dec ?a ?b] =>
      lazymatch a with context [Rlt_dec _ _] => fail | _ =>
      lazymatch b with context [Rlt_dec _ _] => fail | _ =>
        destruct (Rlt_dec a b) end end
  end.

Lemma wheel_core (width height deltaY mx my : R) (vb : ViewBox) :
  0 < width -> 0 < height -> aspect_ok width height vb ->
  2 <= vw (handleWheel width height deltaY mx my vb) <= vw (getBaseViewBox width height) /\
  aspect_ok width height (handleWheel width height deltaY mx my vb) /\
  in_buffer (getBaseViewBox width height) (handleWheel width height deltaY mx my vb).
Proof.
  intros Hw Hh Hasp. unfold aspect_ok, in_buffer in *.
  destruct (base_facts width height Hw Hh) as (Hb1 & Hb2 & Hb3).
  assert (Ha : 0 < width / height) by (apply Rdiv_lt_0_compat; lra).
  unfold handleWheel. cbv zeta.
  set (b := getBaseViewBox width height) in *.
  set (f := 1 + sign deltaY * Rmin (Rabs deltaY) 100 * 0.001).
  set (a := width / height) in *.
  set (kx := mx / width). set (ky := my / height).
  clearbody b f a kx ky.
  match goal with |- context [match ?e with pair _ _ => _ end] =>
    destruct e as [w1 h1] eqn:E1 end.
  match goal with |- context [match ?e with pair _ _ => _ end] =>
    destruct e as [w2 h2] eqn:E2 end.
  assert (F : 2 <= w2 <= vw b /\ h2 * vw b = w2 * vh b).
  { destruct (Rlt_dec (vw b) (vw vb * f)) as [H1|H1]; injection E1 as <- <-;
      destruct (Rlt_dec _ 2) as [H2|H2]; injection E2 as <- <-.
    - lra.
    - split; [lra | ring].
    - split; [lra|]. rewrite Hb3. field. lra.
    - split; [lra|]. replace (vh vb * f * vw b) with ((vh vb * vw b) * f) by ring.
      rewrite Hasp. ring. }
  destruct F as [Fw Fh].
  assert (Fh' : 0 < h2 <= vh b).
  { split.
    - apply (Rmult_lt_reg_r (vw b)); [lra|]. rewrite Fh. nra.
    - apply (Rmult_le_reg_r (vw b)); [lra|]. rewrite Fh. nra. }
  clear E1 E2 Hasp Hb3.
  repeat (split_lt; simpl); repeat split; lra.
Qed.

Lemma base_inv width height : 0 < width -> 0 < height ->
  view_inv width height (getBaseViewBox width height).
Proof.
  intros Hw Hh. destruct (base_facts width height Hw Hh) as (H1 & _ & _).
  unfold view_inv, aspect_ok. split; [lra | ring].
Qed.

Lemma drillDown_inv width height pts : 0 < width -> 0 < height ->
  view_inv width height (drillDown width height pts).
Proof.
  intros Hw Hh. destruct (base_facts width height Hw Hh) as (_ & _ & Hb3).
  assert (Ha : 0 < width / height) by (apply Rdiv_lt_0_compat; lra).
  unfold view_inv, aspect_ok. rewrite Hb3.
  unfold drillDown. destruct (fold_left bbox_step pts (100, 0, 100, 0)) as [[[minX maxX] minY] maxY].
  cbv zeta.
  set (a := width / height) in *. set (hb := vh (getBaseViewBox width height)).
  clearbody a hb.
  match goal with |- context [Rmax (Rmax (maxX - minX + ?p) 10) (Rmax (maxY - minY + ?p) 10)] =>
    set (pad := p) end.
  pose proof (Rmax_r (maxX - minX + pad) 10). pose proof (Rmax_r (maxY - minY + pad) 10).
  set (tW := Rmax (maxX - minX + pad) 10) in *. set (tH := Rmax (maxY - minY + pad) 10) in *.
  clearbody tW tH.
  destruct (Rlt_dec 1 a); simpl; split.
  - nra.
  - ring.
  - lra.
  - field. lra.
Qed.

Lemma zoom_inv width height factor prev : 0 < width -> 0 < height ->
  view_inv width height prev -> view_inv width height (handleZoom width height factor prev).
Proof.
  intros Hw Hh [Hp Hasp]. unfold handleZoom. cbv zeta.
  destruct (Rlt_dec _ _); [apply base_inv; assumption|].
  destruct (Rlt_dec _ 2) as [|H2]; [split; assumption|].
  unfold view_inv, aspect_ok in *. cbn [vw vh]. split; [lra|].
  replace (vh prev * factor * vw (getBaseViewBox width height))
    with ((vh prev * vw (getBaseViewBox width height)) * factor) by ring.
  rewrite Hasp. ring.
Qed.

Lemma dispatch_inv width height s e : 0 < width -> 0 < height ->
  view_inv width height (viewBox s) -> view_inv width height (viewBox (dispatch width height s e)).
Proof.
  intros Hw Hh Hs. destruct e as [b cx0 cy0 | cx0 cy0 | | | c]; simpl.
  - unfold handleMouseDown. destruct (negb _); exact Hs.
  - unfold handleMouseMove. destruct (isDragging s); [|exact Hs]. simpl negb. cbv iota zeta.
    destruct (is_zero _ && is_zero _); [exact Hs|]. exact Hs.
  - exact Hs.
  - unfold handleContainerClick. destruct (Rlt_dec _ _); exact Hs.
  - unfold handleClusterClick. destruct (Rlt_dec _ _); [exact Hs|].
    destruct (negb _); [destruct (points c); exact Hs|]. apply drillDown_inv; assumption.
Qed.

Lemma dispatch_view_inv width height s e : 0 < width -> 0 < height ->
  view_inv width height (viewBox s) ->
  view_inv width height (viewBox (dispatch_view width height s e)).
Proof.
  intros Hw Hh Hs. destruct e as [e | d mx my | f |]; simpl.
  - apply dispatch_inv; assumption.
  - destruct Hs as [_ Hs]. destruct (wheel_core width height d mx my (viewBox s) Hw Hh Hs)
      as ([H1 _] & H2 & _). split; assumption.
  - apply zoom_inv; assumption.
  - apply base_inv; assumption.
Qed.

(** [handleWheel] keeps the width between the zoom limit 2 and the base
    width, keeps the container's aspect ratio (when the view box it starts
    from has it), and keeps the view box inside the base rectangle widened
    by half its extent on each side. *)
Theorem handleWheel_bounds (width height deltaY mx my : R) (vb : ViewBox) :
  0 < width -> 0 < height -> aspect_ok width height vb ->
  2 <= vw (handleWheel width height deltaY mx my vb) <= vw (getBaseViewBox width height) /\
  aspect_ok width height (handleWheel width height deltaY mx my vb) /\
  in_buffer (getBaseViewBox width height) (handleWheel width height deltaY mx my vb).
Proof. exact (wheel_core width height deltaY mx my vb). Qed.

Lemma aspect_ok_base_100 : aspect_ok 100 100 (mkViewBox 0 0 100 100).
Proof. unfold aspect_ok. rewrite StepZoom.base_100. simpl. ring. Qed.

Lemma handleWheel_bounds_witness :
  0 < 100 /\ 0 < 100 /\ aspect_ok 100 100 (mkViewBox 0 0 100 100) /\
  (2 <= vw (handleWheel 100 100 (-50) 10 20 (mkViewBox 0 0 100 100))
     <= vw (getBaseViewBox 100 100) /\
   aspect_ok 100 100 (handleWheel 100 100 (-50) 10 20 (mkViewBox 0 0 100 100)) /\
   in_buffer (getBaseViewBox 100 100) (handleWheel 100 100 (-50) 10 20 (mkViewBox 0 0 100 100))).
Proof.
  split; [lra|split; [lra|split; [exact aspect_ok_base_100|]]].
  apply (handleWheel_bounds 100 100 (-50) 10 20 (mkViewBox 0 0 100 100));
    [lra|lra|exact aspect_ok_base_100].
Defined.

(** Every view box the component reaches from one that satisfies the
    invariant (width at least 2, the container's aspect ratio), for instance
    the base rectangle it starts with, satisfies it again: mouse gestures,
    cluster drill-downs, wheel zooms, zoom buttons and resets. *)
Theorem run_view_inv width height evs s : 0 < width -> 0 < height ->
  view_inv width height (viewBox s) ->
  view_inv width height (viewBox (run_view width height evs s)).
Proof.
  intros Hw Hh. unfold run_view. revert s. induction evs as [|e evs IH]; intros s Hs; simpl.
  - exact Hs.
  - apply IH. apply dispatch_view_inv; assumption.
Qed.

Lemma view_inv_base_100 : view_inv 100 100 (viewBox (idle_state None)).
Proof. split; [simpl; lra | exact aspect_ok_base_100]. Qed.

Lemma run_view_inv_witness :
  0 < 100 /\ 0 < 100 /\ view_inv 100 100 (viewBox (idle_state None)) /\
  view_inv 100 100 (viewBox (run_view 100 100
    [Wheel (-50) 10 20; ZoomButton 0.75; Gesture (MouseDown 0 1 1); Gesture (MouseMove 30 40);
     Gesture (ClickCluster (make_cluster q45 [q45; q55])); ResetZoom] (idle_state None))).
Proof.
  split; [lra|split; [lra|split; [exact view_inv_base_100|]]].
  apply run_view_inv; [lra|lra|exact view_inv_base_100].
Defined.

End ViewInv.


Module PanPath.

Lemma move_spec width height a b s : isDragging s = true ->
  handleMouseMove width height a b s =
  mkHState (mkViewBox (vx (viewBox s) - (a - fst (dragStart s)) * (vw (viewBox s) / width))
                      (vy (viewBox s) - (b - snd (dragStart s)) * (vh (viewBox s) / height))
                      (vw (viewBox s)) (vh (viewBox s)))
           true (a, b)
           (dragDistance s + (Rabs (a - fst (dragStart s)) + Rabs (b - snd (dragStart s))))
           (selectedTargetId s).
Proof.
  intros Hd. destruct s as [[vx0 vy0 vw0 vh0] dr [sx sy] dd sel]; simpl in *; subst dr.
  unfold handleMouseMove, is_zero; simpl.
  destruct (Req_EM_T (a - sx) 0) as [E1|E1]; destruct (Req_EM_T (b - sy) 0) as [E2|E2];
    simpl; try reflexivity.
  unfold set_dragDistance; simpl. rewrite E1, E2. f_equal; try f_equal; lra.
Qed.

Definition moves (ps : list (R * R)) : list Event := map (fun p => MouseMove (fst p) (snd p)) ps.

Lemma moves_compose width height ps q s : isDragging s = true ->
  let s' := run width height (moves (ps ++ [q])) s in
  let s1 := handleMouseMove width height (fst q) (snd q) s in
  viewBox s' = viewBox s1 /\ isDragging s' = true /\ dragStart s' = q /\
  selectedTargetId s' = selectedTargetId s /\ dragDistance s1 <= dragDistance s'.
Proof.
  cbv zeta. revert s. induction ps as [|p ps IH]; intros s Hd.
  - unfold run. simpl. rewrite move_spec by exact Hd. simpl.
    repeat split; try reflexivity; try lra. destruct q; reflexivity.
  - unfold run in *. simpl.
    assert (Hd2 : isDragging (handleMouseMove width height (fst p) (snd p) s) = true)
      by (rewrite move_spec by exact Hd; reflexivity).
    destruct (IH _ Hd2) as (H1 & H2 & H3 & H4 & H5).
    rewrite H1. split; [|split; [exact H2|split; [exact H3|split]]].
    + rewrite (move_spec _ _ (fst q) (snd q) _ Hd2), (move_spec _ _ (fst q) (snd q) s Hd).
      rewrite (move_spec _ _ (fst p) (snd p) s Hd). simpl. f_equal; ring.
    + rewrite H4, (move_spec _ _ (fst p) (snd p) s Hd). reflexivity.
    + eapply Rle_trans; [|exact H5].
      rewrite (move_spec _ _ (fst q) (snd q) _ Hd2), (move_spec _ _ (fst q) (snd q) s Hd).
      rewrite (move_spec _ _ (fst p) (snd p) s Hd). simpl.
      pose proof (Rabs_triang (fst q - fst p) (fst p - fst (dragStart s))).
      pose proof (Rabs_triang (snd q - snd p) (snd p - snd (dragStart s))).
      replace (fst q - fst p + (fst p - fst (dragStart s))) with (fst q - fst (dragStart s))
        in * by ring.
      replace (snd q - snd p + (snd p - snd (dragStart s))) with (snd q - snd (dragStart s))
        in * by ring.
      lra.
Qed.

(** During a drag, a path of mouse moves leaves the view box where a single
    move to its end point would, ends with the drag anchored at that point,
    keeps the selection, and accumulates at least the single move's
    displacement (the triangle inequality). *)
Theorem pan_path_independent (width height : R) (ps : list (R * R)) (q : R * R) (s : HState) :
  isDragging s = true ->
  let s' := run width height (moves (ps ++ [q])) s in
  let s1 := handleMouseMove width height (fst q) (snd q) s in
  viewBox s' = viewBox s1 /\ isDragging s' = true /\ dragStart s' = q /\
  selectedTargetId s' = selectedTargetId s /\ dragDistance s1 <= dragDistance s'.
Proof. exact (moves_compose width height ps q s). Qed.

Lemma pan_path_independent_witness :
  isDragging dragging_state = true /\
  (let s' := run 800 400 (moves ([(20, 30)] ++ [(50, 60)])) dragging_state in
   let s1 := handleMouseMove 800 400 50 60 dragging_state in
   viewBox s' = viewBox s1 /\ isDragging s' = true /\ dragStart s' = (50, 60) /\
   selectedTargetId s' = selectedTargetId dragging_state /\ dragDistance s1 <= dragDistance s').
Proof.
  split; [reflexivity|]. exact (pan_path_independent 800 400 [(20, 30)] (50, 60) dragging_state
                                  eq_refl).
Defined.

(** A left press, any path of moves and a release whose end point is at
    least 5 pixels (in [|dx| + |dy|]) from the press point moves the origin by
    the net displacement only, and the click that follows does not clear the
    selection; above 5 pixels it does not activate a cluster either. *)
Theorem drag_suppresses_click width height px py ps q s c :
  5 <= Rabs (fst q - px) + Rabs (snd q - py) ->
  let s' := run width height ([MouseDown 0 px py] ++ moves (ps ++ [q]) ++ [MouseUp]) s in
  vx (viewBox s') = vx (viewBox s) - (fst q - px) * (vw (viewBox s) / width) /\
  vy (viewBox s') = vy (viewBox s) - (snd q - py) * (vh (viewBox s) / height) /\
  selectedTargetId (handleContainerClick s') = selectedTargetId s /\
  (5 < Rabs (fst q - px) + Rabs (snd q - py) -> handleClusterClick width height c s' = s').
Proof.
  intros H5 s'. subst s'. unfold run. rewrite !fold_left_app. cbn [fold_left dispatch].
  change (fold_left (dispatch width height) (moves (ps ++ [q])) (handleMouseDown 0 px py s))
    with (run width height (moves (ps ++ [q])) (handleMouseDown 0 px py s)).
  set (s0 := handleMouseDown 0 px py s).
  assert (Hd : isDragging s0 = true) by reflexivity.
  destruct (moves_compose width height ps q s0 Hd) as (H1 & _ & _ & H4 & H5').
  set (s1 := run width height (moves (ps ++ [q])) s0) in *. clearbody s1.
  cbv zeta in *. rewrite move_spec in H1, H5' by exact Hd.
  subst s0. cbn in H1, H5', H4.
  unfold handleMouseUp, set_drag, handleContainerClick, handleClusterClick. cbn [viewBox dragDistance selectedTargetId].
  rewrite H1. cbn [vx vy]. split; [ring|split; [ring|split]].
  - destruct (Rlt_dec _ 5); [lra|]. exact H4.
  - intros H. destruct (Rlt_dec 5 _); [reflexivity|lra].
Qed.

Lemma drag_suppresses_click_witness :
  5 <= Rabs (fst (106, 100) - 100) + Rabs (snd (106, 100) - 100) /\
  (let s' := run 800 400 ([MouseDown 0 100 100] ++ moves ([(103, 100)] ++ [(106, 100)])
                           ++ [MouseUp]) (idle_state (Some 1%Z)) in
   vx (viewBox s') = vx (viewBox (idle_state (Some 1%Z)))
                     - (fst (106, 100) - 100) * (vw (viewBox (idle_state (Some 1%Z))) / 800) /\
   vy (viewBox s') = vy (viewBox (idle_state (Some 1%Z)))
                     - (snd (106, 100) - 100) * (vh (viewBox (idle_state (Some 1%Z))) / 400) /\
   selectedTargetId (handleContainerClick s') = selectedTargetId (idle_state (Some 1%Z)) /\
   (5 < Rabs (fst (106, 100) - 100) + Rabs (snd (106, 100) - 100) ->
    handleClusterClick 800 400 (make_cluster tC [tC]) s' = s')).
Proof.
  assert (H : 5 <= Rabs (fst (106, 100) - 100) + Rabs (snd (106, 100) - 100)).
  { simpl. rewrite (Rabs_right (106 - 100)) by lra. rewrite (Rabs_right (100 - 100)) by lra.
    lra. }
  split; [exact H|]. exact (drag_suppresses_click 800 400 100 100 [(103, 100)] (106, 100)
                              (idle_state (Some 1%Z)) (make_cluster tC [tC]) H).
Defined.

End PanPath.

Module Tooltip.

(** The tooltip of a cluster is placed at the percentages of the container
    that map back, through the pixel-to-data projection of [handleWheel], to
    the cluster centre; for a centre inside the view box they lie in
    [[0, 100]]. *)
Theorem tooltip_round_trip (c : Cluster) (vb : ViewBox) (width height : R) :
  0 < vw vb -> 0 < vh vb -> width <> 0 -> height <> 0 ->
  to_data_x vb width (fst (getTooltipPosition c vb) / 100 * width) = cx c /\
  to_data_y vb height (snd (getTooltipPosition c vb) / 100 * height) = cy c /\
  (vx vb <= cx c <= vx vb + vw vb -> 0 <= fst (getTooltipPosition c vb) <= 100) /\
  (vy vb <= cy c <= vy vb + vh vb -> 0 <= snd (getTooltipPosition c vb) <= 100).
Proof.
  intros Hw Hh Hw' Hh'. unfold to_data_x, to_data_y, getTooltipPosition. simpl.
  split; [field; lra|split; [field; lra|split]].
  - intros H. split.
    + apply Rmult_le_pos; [|lra]. unfold Rdiv. apply Rmult_le_pos; [lra|left; apply Rinv_0_lt_compat; lra].
    + apply (Rmult_le_reg_r (/ 100)); [lra|]. rewrite Rmult_assoc, Rinv_r, Rmult_1_r by lra.
      apply (Rmult_le_reg_r (vw vb)); [lra|]. unfold Rdiv. rewrite Rmult_assoc, Rinv_l by lra.
      lra.
  - intros H. split.
    + apply Rmult_le_pos; [|lra]. unfold Rdiv. apply Rmult_le_pos; [lra|left; apply Rinv_0_lt_compat; lra].
    + apply (Rmult_le_reg_r (/ 100)); [lra|]. rewrite Rmult_assoc, Rinv_r, Rmult_1_r by lra.
      apply (Rmult_le_reg_r (vh vb)); [lra|]. unfold Rdiv. rewrite Rmult_assoc, Rinv_l by lra.
      lra.
Qed.

Lemma tooltip_round_trip_witness :
  0 < vw (mkViewBox 0 0 100 100) /\ 0 < vh (mkViewBox 0 0 100 100) /\ 800 <> 0 /\ 400 <> 0 /\
  (to_data_x (mkViewBox 0 0 100 100) 800
     (fst (getTooltipPosition (make_cluster tC [tC]) (mkViewBox 0 0 100 100)) / 100 * 800)
     = cx (make_cluster tC [tC]) /\
   to_data_y (mkViewBox 0 0 100 100) 400
     (snd (getTooltipPosition (make_cluster tC [tC]) (mkViewBox 0 0 100 100)) / 100 * 400)
     = cy (make_cluster tC [tC]) /\
   (vx (mkViewBox 0 0 100 100) <= cx (make_cluster tC [tC])
      <= vx (mkViewBox 0 0 100 100) + vw (mkViewBox 0 0 100 100) ->
    0 <= fst (getTooltipPosition (make_cluster tC [tC]) (mkViewBox 0 0 100 100)) <= 100) /\
   (vy (mkViewBox 0 0 100 100) <= cy (make_cluster tC [tC])
      <= vy (mkViewBox 0 0 100 100) + vh (mkViewBox 0 0 100 100) ->
    0 <= snd (getTooltipPosition (make_cluster tC [tC]) (mkViewBox 0 0 100 100)) <= 100)).
Proof.
  split; [simpl; lra|split; [simpl; lra|split; [lra|split; [lra|]]]].
  apply tooltip_round_trip; simpl; lra.
Defined.

End Tooltip.


Module WheelDir.

(** From a view box at most as wide as the base and at least 2 wide, a wheel
    step down ([deltaY > 0]) never narrows the view (zoom out), and a step up
    never widens it unless it snaps to the base rectangle (the
    [|newW - base.w| < 0.1] branch). *)
Theorem wheel_direction (width height deltaY mx my : R) (vb : ViewBox) :
  2 <= vw vb <= vw (getBaseViewBox width height) ->
  (0 < deltaY -> vw vb <= vw (handleWheel width height deltaY mx my vb)) /\
  (deltaY < 0 -> vw (handleWheel width height deltaY mx my vb) <= vw vb \/
                 handleWheel width height deltaY mx my vb = getBaseViewBox width height).
Proof.
  intros Hvb. unfold handleWheel. cbv zeta.
  set (b := getBaseViewBox width height) in *.
  set (f := 1 + sign deltaY * Rmin (Rabs deltaY) 100 * 0.001).
  assert (Hf1 : 0 < deltaY -> 1 < f).
  { intros H. subst f. unfold sign. destruct (Rlt_dec 0 deltaY); [|lra].
    rewrite Rabs_right by lra. unfold Rmin. destruct (Rle_dec deltaY 100); lra. }
  assert (Hf2 : deltaY < 0 -> f < 1).
  { intros H. subst f. unfold sign. destruct (Rlt_dec 0 deltaY); [lra|].
    destruct (Rlt_dec deltaY 0); [|lra].
    rewrite Rabs_left by lra. unfold Rmin. destruct (Rle_dec (- deltaY) 100); lra. }
  clearbody b f.
  match goal with |- context [match ?e with pair _ _ => _ end] =>
    destruct e as [w1 h1] eqn:E1 end.
  match goal with |- context [match ?e with pair _ _ => _ end] =>
    destruct e as [w2 h2] eqn:E2 end.
  assert (G1 : 0 < deltaY -> vw vb <= w2).
  { intros H. specialize (Hf1 H).
    destruct (Rlt_dec (vw b) (vw vb * f)) as [H1|H1]; injection E1 as <- <-;
      destruct (Rlt_dec _ 2) as [H2|H2]; injection E2 as <- <-; nra. }
  assert (G2 : deltaY < 0 -> w2 <= vw vb).
  { intros H. specialize (Hf2 H).
    destruct (Rlt_dec (vw b) (vw vb * f)) as [H1|H1]; injection E1 as <- <-;
      destruct (Rlt_dec _ 2) as [H2|H2]; injection E2 as <- <-; nra. }
  destruct (Rlt_dec (Rabs (w2 - vw b)) 0.1); cbn [vw].
  - split; [lra | intros; right; reflexivity].
  - split; [exact G1 | intros H; left; exact (G2 H)].
Qed.

Lemma wheel_direction_witness :
  2 <= vw (mkViewBox 0 0 50 50) <= vw (getBaseViewBox 100 100) /\
  (0 < 30 -> vw (mkViewBox 0 0 50 50) <= vw (handleWheel 100 100 30 10 20 (mkViewBox 0 0 50 50))) /\
  (30 < 0 -> vw (handleWheel 100 100 30 10 20 (mkViewBox 0 0 50 50)) <= vw (mkViewBox 0 0 50 50) \/
             handleWheel 100 100 30 10 20 (mkViewBox 0 0 50 50) = getBaseViewBox 100 100).
Proof.
  assert (H : 2 <= vw (mkViewBox 0 0 50 50) <= vw (getBaseViewBox 100 100))
    by (rewrite StepZoom.base_100; simpl; lra).
  split; [exact H|]. exact (wheel_direction 100 100 30 10 20 (mkViewBox 0 0 50 50) H).
Defined.

End WheelDir.

Module Edit.

Lemma find_update (l : list TargetArea) (k : Z) (d : string) :
  find (fun t => Z.eqb (id t) k)
    (map (fun t => if Z.eqb (id t) k then with_description t d else t) l)
  = option_map (fun t => with_description t d) (find (fun t => Z.eqb (id t) k) l).
Proof.
  induction l as [|t l IH]; simpl; [reflexivity|].
  destruct (Z.eqb (id t) k) eqn:E; simpl; rewrite ?E; [reflexivity|exact IH].
Qed.

(** With a target selected, Escape discards the edit and shows the stored
    description again, Enter without Cmd or Ctrl does nothing, and Cmd/Ctrl
    plus Enter leaves edit mode and commits the text through [App]'s update,
    after which the selected target carries it and a later Escape keeps it. *)
Theorem edit_commit_or_discard (r : PredictionResult) (sel : option Z) (e : EditState)
    (t : TargetArea) (metaKey ctrlKey : bool) :
  selectedTarget (targetAreas r) sel = Some t ->
  handleKeyDown "Escape" metaKey ctrlKey (targetAreas r) sel e (Some r)
    = (Some r, mkEdit false (description t)) /\
  (metaKey || ctrlKey = false ->
     handleKeyDown "Enter" metaKey ctrlKey (targetAreas r) sel e (Some r) = (Some r, e)) /\
  (metaKey || ctrlKey = true ->
     let '(r', e') := handleKeyDown "Enter" metaKey ctrlKey (targetAreas r) sel e (Some r) in
     isEditing e' = false /\
     exists r'', r' = Some r'' /\
       selectedTarget (targetAreas r'') sel = Some (with_description t (editDescription e)) /\
       handleCancel (targetAreas r'') sel e' = mkEdit false (editDescription e)).
Proof.
  intros Hsel. unfold handleKeyDown. cbn [String.eqb Ascii.eqb Bool.eqb andb].
  split; [|split].
  - unfold handleCancel. rewrite Hsel. reflexivity.
  - intros H. rewrite H. reflexivity.
  - intros H. rewrite H. unfold handleSave. rewrite Hsel. simpl.
    split; [reflexivity|]. eexists. split; [reflexivity|]. simpl.
    destruct sel as [k|]; [|discriminate]. unfold selectedTarget in *.
    assert (Hk : id t = k) by (apply find_some in Hsel as [_ Hk]; apply Z.eqb_eq; exact Hk).
    subst k. rewrite find_update, Hsel. simpl. split; [reflexivity|].
    unfold handleCancel. simpl. rewrite find_update, Hsel. reflexivity.
Qed.

Lemma edit_commit_or_discard_witness :
  selectedTarget (targetAreas sample_result) (Some 2%Z) = Some tB /\
  handleKeyDown "Escape" false true (targetAreas sample_result) (Some 2%Z)
    (mkEdit true "revised") (Some sample_result)
    = (Some sample_result, mkEdit false (description tB)) /\
  (false || true = false ->
     handleKeyDown "Enter" false true (targetAreas sample_result) (Some 2%Z)
       (mkEdit true "revised") (Some sample_result) = (Some sample_result, mkEdit true "revised")) /\
  (false || true = true ->
     let '(r', e') := handleKeyDown "Enter" false true (targetAreas sample_result) (Some 2%Z)
                        (mkEdit true "revised") (Some sample_result) in
     isEditing e' = false /\
     exists r'', r' = Some r'' /\
       selectedTarget (targetAreas r'') (Some 2%Z)
         = Some (with_description tB (editDescription (mkEdit true "revised"))) /\
       handleCancel (targetAreas r'') (Some 2%Z) e'
         = mkEdit false (editDescription (mkEdit true "revised"))).
Proof.
  assert (H : selectedTarget (targetAreas sample_result) (Some 2%Z) = Some tB) by reflexivity.
  split; [exact H|].
  exact (edit_commit_or_discard sample_result (Some 2%Z) (mkEdit true "revised") tB false true H).
Defined.

End Edit.

Module UpdateCompose.

(** Two description updates of the same target leave the last text (the
    first is overwritten), and updates of two different targets commute. *)
Theorem update_overwrite_commute (r : option PredictionResult) (k1 k2 : Z) (d1 d2 : string) :
  handleUpdateTargetDescription (handleUpdateTargetDescription r k1 d1) k1 d2
    = handleUpdateTargetDescription r k1 d2 /\
  (k1 <> k2 ->
   handleUpdateTargetDescription (handleUpdateTargetDescription r k1 d1) k2 d2
    = handleUpdateTargetDescription (handleUpdateTargetDescription r k2 d2) k1 d1).
Proof.
  destruct r as [r|]; [|split; [reflexivity|intros; reflexivity]].
  simpl. split; [|intros Hne]; do 2 f_equal; rewrite !map_map; apply map_ext; intros t.
  - destruct (Z.eqb (id t) k1) eqn:E; simpl; rewrite ?E; reflexivity.
  - destruct (Z.eqb_spec (id t) k1), (Z.eqb_spec (id t) k2); simpl;
      repeat match goal with |- context [Z.eqb ?a ?b] => destruct (Z.eqb_spec a b) end;
      try reflexivity; try lia.
Qed.

End UpdateCompose.


Module Dashboard.

Definition tags_inv (tags : list string) : Prop := NoDup tags /\ incl tags tag_names.

Lemma existsb_eqb_In (u : string) (l : list string) : existsb (String.eqb u) l = true <-> In u l.
Proof.
  rewrite existsb_exists. split.
  - intros [v [Hv E]]. apply String.eqb_eq in E. subst v. exact Hv.
  - intros H. exists u. split; [exact H | apply String.eqb_refl].
Qed.

Lemma set_add_In tag tags u : In u (set_add tag tags) <-> In u tags \/ u = tag.
Proof.
  unfold set_add. destruct (existsb (String.eqb tag) tags) eqn:E.
  - apply existsb_eqb_In in E. split; [tauto|]. intros [H| ->]; assumption.
  - rewrite in_app_iff. simpl. split; intros [H|H]; try tauto.
    + destruct H as [H|[]]. right; symmetry; exact H.
    + right; left; symmetry; exact H.
Qed.

Lemma set_add_NoDup tag tags : NoDup tags -> NoDup (set_add tag tags).
Proof.
  intros H. unfold set_add. destruct (existsb (String.eqb tag) tags) eqn:E; [exact H|].
  apply (Permutation_NoDup (l := tag :: tags)); [apply Permutation_cons_append|].
  constructor; [|exact H]. intros Hin. apply existsb_eqb_In in Hin. congruence.
Qed.

Lemma add_when_inv c tag tags : tags_inv tags -> In tag tag_names -> tags_inv (add_when c tag tags).
Proof.
  intros [Hn Hi] Ht. unfold add_when. destruct c; [|split; assumption].
  split; [apply set_add_NoDup; exact Hn|].
  intros u Hu. apply set_add_In in Hu as [Hu| ->]; [apply Hi; exact Hu | exact Ht].
Qed.

Lemma insert_str_perm a l : Permutation (insert_str a l) (a :: l).
Proof.
  induction l as [|b l IH]; simpl; [reflexivity|].
  destruct (String.ltb a b); [reflexivity|].
  rewrite IH. apply perm_swap.
Qed.

Lemma sort_strings_perm l : Permutation (sort_strings l) l.
Proof.
  unfold sort_strings. assert (H : forall acc, Permutation
    (fold_left (fun acc a => insert_str a acc) l acc) (acc ++ l)).
  { induction l as [|a l IH]; intros acc; simpl; [rewrite app_nil_r; reflexivity|].
    rewrite IH, insert_str_perm. simpl. apply Permutation_middle. }
  apply H.
Qed.

Lemma getTargetTags_ok toLowerCase t :
  getTargetTags toLowerCase t <> [] /\ tags_inv (getTargetTags toLowerCase t).
Proof.
  unfold getTargetTags. cbv zeta.
  match goal with |- context [sort_strings (if Nat.eqb (length ?X) 0 then _ else _)] =>
    set (tags := X) end.
  assert (Hinv : tags_inv tags).
  { subst tags. repeat apply add_when_inv;
      try (simpl; tauto); split; [constructor | intros u []]. }
  clearbody tags.
  destruct (Nat.eqb_spec (length tags) 0) as [H0|H0].
  - destruct tags; [|discriminate]. vm_compute. split; [discriminate|].
    split; [repeat constructor; intros []|]. intros u [<-|[]]. simpl; tauto.
  - destruct Hinv as [Hn Hi]. pose proof (sort_strings_perm tags) as Hp. split; [|split].
    + intros He. apply Permutation_length in Hp. rewrite He in Hp. simpl in Hp. lia.
    + apply (Permutation_NoDup (Permutation_sym Hp)). exact Hn.
    + intros u Hu. apply Hi. apply (Permutation_in _ Hp). exact Hu.
Qed.

(** [getTargetTags] always returns at least one tag ([Unclassified] when no
    keyword matches), never the same tag twice, and only the nine tag
    names, whatever [toLowerCase] does. *)
Theorem target_tags_wellformed toLowerCase t :
  getTargetTags toLowerCase t <> [] /\ NoDup (getTargetTags toLowerCase t) /\
  incl (getTargetTags toLowerCase t) tag_names.
Proof.
  destruct (getTargetTags_ok toLowerCase t) as [H1 [H2 H3]]. auto.
Qed.

Lemma no_disabled toLowerCase t :
  existsb (fun u => negb (existsb (String.eqb u) [])) (getTargetTags toLowerCase t) = true.
Proof.
  destruct (getTargetTags_ok toLowerCase t) as [H _].
  destruct (getTargetTags toLowerCase t); [contradiction|reflexivity].
Qed.

(** With no tag disabled, the displayed targets are those whose probability
    category has its filter on; with all filters on every target is shown;
    turning off the [high] filter shows exactly the targets of probability
    below 0.6. *)
Theorem display_by_category toLowerCase T F :
  displayedTargets toLowerCase T F []
    = filter (fun t => activeFilter F (getProbabilityCategory (probability t))) T /\
  displayedTargets toLowerCase T (mkFilters true true true) [] = T /\
  displayedTargets toLowerCase T (toggleFilter High (mkFilters true true true)) []
    = filter (fun t => if Rlt_dec (probability t) 0.6 then true else false) T.
Proof.
  assert (Hc : forall F, displayedTargets toLowerCase T F []
    = filter (fun t => activeFilter F (getProbabilityCategory (probability t))) T).
  { intros F0. unfold displayedTargets. apply filter_ext. intros t. rewrite no_disabled.
    destruct (activeFilter _ _); reflexivity. }
  split; [apply Hc|split]; rewrite Hc.
  - clear Hc. induction T as [|t T IH]; simpl; [reflexivity|].
    destruct (getProbabilityCategory _); simpl; rewrite IH; reflexivity.
  - apply filter_ext. intros t. unfold getProbabilityCategory.
    destruct (Rle_dec 0.6 (probability t)); destruct (Rlt_dec (probability t) 0.6);
      try (exfalso; lra); simpl; [reflexivity|].
    destruct (Rle_dec 0.3 (probability t)); reflexivity.
Qed.

Lemma existsb_ext_in {A} (f g : A -> bool) (l : list A) :
  (forall a, In a l -> f a = g a) -> existsb f l = existsb g l.
Proof.
  induction l as [|a l IH]; intros H; simpl; [reflexivity|].
  rewrite (H a (or_introl eq_refl)), IH; [reflexivity|]. intros b Hb. apply H. right; exact Hb.
Qed.

Lemma toggleTag_In g D u :
  In u (toggleTag g D) <-> (In u D /\ u <> g) \/ (u = g /\ ~ In g D).
Proof.
  unfold toggleTag. destruct (existsb (String.eqb g) D) eqn:E.
  - apply existsb_eqb_In in E. split.
    + intros H. apply in_remove in H. tauto.
    + intros [[H1 H2]|[_ H]]; [apply in_in_remove; assumption | contradiction].
  - assert (Hg : ~ In g D) by (intros H; apply existsb_eqb_In in H; congruence).
    rewrite in_app_iff. simpl. split.
    + intros [H|[H|[]]]; [left; split; [exact H|intros ->; contradiction] | right; auto].
    + intros [[H _]|[-> _]]; auto.
Qed.

(** [toggleTag] flips the membership of its tag and no other, and toggling a
    tag twice shows the same targets as before. *)
Theorem toggleTag_flip_involutive toLowerCase T F g D :
  (In g (toggleTag g D) <-> ~ In g D) /\
  (forall u, u <> g -> (In u (toggleTag g D) <-> In u D)) /\
  displayedTargets toLowerCase T F (toggleTag g (toggleTag g D))
    = displayedTargets toLowerCase T F D.
Proof.
  split; [|split].
  - rewrite toggleTag_In. tauto.
  - intros u Hu. rewrite toggleTag_In. tauto.
  - unfold displayedTargets. apply filter_ext. intros t.
    destruct (negb _); [reflexivity|]. apply existsb_ext_in. intros u _. f_equal.
    apply eq_true_iff_eq. rewrite !existsb_eqb_In, !toggleTag_In.
    destruct (string_dec u g) as [->|Hne]; [|tauto].
    assert (Hgg : g = g) by reflexivity. destruct (in_dec string_dec g D); tauto.
Qed.

(** Disabling more tags never shows more targets. *)
Theorem disabling_hides toLowerCase T F D D' :
  incl D D' -> incl (displayedTargets toLowerCase T F D') (displayedTargets toLowerCase T F D).
Proof.
  intros Hinc t Ht. unfold displayedTargets in *. apply filter_In in Ht as [Ht Hf].
  apply filter_In. split; [exact Ht|].
  destruct (negb _); [exact Hf|].
  apply existsb_exists in Hf as [u [Hu Hn]]. apply existsb_exists. exists u. split; [exact Hu|].
  apply negb_true_iff in Hn. apply negb_true_iff.
  destruct (existsb (String.eqb u) D) eqn:E; [|reflexivity].
  apply existsb_eqb_In, Hinc, existsb_eqb_In in E. congruence.
Qed.

Lemma disabling_hides_witness :
  incl [] ["Phyllic"] /\
  incl (displayedTargets (fun s => s) [tA; tB] (mkFilters true true true) ["Phyllic"])
       (displayedTargets (fun s => s) [tA; tB] (mkFilters true true true) []).
Proof.
  assert (H : incl (@nil string) ["Phyllic"]) by (intros a []).
  split; [exact H|]. exact (disabling_hides (fun s => s) [tA; tB] (mkFilters true true true)
                              [] ["Phyllic"] H).
Defined.

End Dashboard.


Module DensityMore.

Lemma sum_perm (l1 l2 : list R) : Permutation l1 l2 ->
  fold_right Rplus 0 l1 = fold_right Rplus 0 l2.
Proof. intros H. induction H; simpl; lra. Qed.

(** Adding a target of nonnegative probability never lowers a cell's
    intensity, and the cells do not depend on the order of the targets. *)
Theorem intensity_monotone_perm (vb : ViewBox) (P Q : list TargetArea) (t : TargetArea)
    (i j : nat) :
  0 <= probability t ->
  intensity (cell_at vb P i j) <= intensity (cell_at vb (t :: P) i j) /\
  (Permutation P Q -> cell_at vb P i j = cell_at vb Q i j).
Proof.
  intros Ht. split.
  - rewrite !Density.cell_at_intensity. unfold spec_intensity. cbn [map fold_right].
    match goal with |- Rmin 1 ?a <= Rmin 1 (?b + ?a) =>
      assert (0 <= b) by (apply Rmult_le_pos; [exact Ht | left; apply exp_pos]) end.
    unfold Rmin. do 2 destruct (Rle_dec 1 _); lra.
  - intros Hp. pose proof (Density.cell_at_intensity vb P i j) as H1.
    pose proof (Density.cell_at_intensity vb Q i j) as H2.
    unfold spec_intensity in H1, H2.
    rewrite (sum_perm _ _ (Permutation_map _ Hp)) in H1. rewrite <- H2 in H1.
    unfold cell_at in *. cbn [intensity] in H1. cbv zeta in *. rewrite H1. reflexivity.
Qed.

Lemma intensity_monotone_perm_witness :
  0 <= probability tA /\
  intensity (cell_at (mkViewBox 0 0 100 100) [tB; tC] 0 0)
    <= intensity (cell_at (mkViewBox 0 0 100 100) (tA :: [tB; tC]) 0 0) /\
  (Permutation [tB; tC] [tC; tB] ->
   cell_at (mkViewBox 0 0 100 100) [tB; tC] 0 0 = cell_at (mkViewBox 0 0 100 100) [tC; tB] 0 0).
Proof.
  assert (H : 0 <= probability tA) by (simpl; lra).
  split; [exact H|].
  exact (intensity_monotone_perm (mkViewBox 0 0 100 100) [tB; tC] [tC; tB] tA 0 0 H).
Defined.

(** The 30 x 30 cells tile the view box: the first column starts at its left
    edge, each column starts where the previous one ends, and the last one
    ends at its right edge; likewise for the rows. *)
Theorem cells_tile (vb : ViewBox) (P : list TargetArea) (i j : nat) :
  cell_x (cell_at vb P 0 j) = vx vb /\
  cell_x (cell_at vb P (S i) j) = cell_x (cell_at vb P i j) + cell_w (cell_at vb P i j) /\
  cell_x (cell_at vb P 29 j) + cell_w (cell_at vb P 29 j) = vx vb + vw vb /\
  cell_y (cell_at vb P i 0) = vy vb /\
  cell_y (cell_at vb P i (S j)) = cell_y (cell_at vb P i j) + cell_h (cell_at vb P i j) /\
  cell_y (cell_at vb P i 29) + cell_h (cell_at vb P i 29) = vy vb + vh vb.
Proof.
  unfold cell_at. cbn [cell_x cell_y cell_w cell_h]. rewrite !S_INR, Density.INR_gridSize.
  replace (INR 29) with 29 by (simpl; lra). simpl INR.
  repeat split; field.
Qed.

End DensityMore.

Module ClusterSeed.

Lemma scan_members threshold p rest used m :
  In m (fst (scan threshold p rest used)) -> In m rest /\ dist m p <= threshold.
Proof.
  revert used. induction rest as [|n rest IH]; intros used; simpl; [tauto|].
  destruct (in_dec Z.eq_dec (id n) used).
  - intros H. apply IH in H. tauto.
  - destruct (Rle_dec (dist n p) threshold) as [Hd|Hd].
    + destruct (scan threshold p rest (id n :: used)) as [ms used'] eqn:E. simpl.
      intros [<-|H]; [tauto|]. specialize (IH (id n :: used)). rewrite E in IH.
      apply IH in H. tauto.
    + intros H. apply IH in H. tauto.
Qed.

Lemma loop_seeded threshold l used :
  StronglySorted xle l ->
  Forall (fun c => exists p ms, points c = p :: ms /\ In p l /\
            Forall (fun m => dist m p <= threshold /\ x p <= x m /\ In m l) ms /\
            cid c = match ms with [] => PointKeyOf (id p) | _ => ClusterKeyOf (id p) end)
    (cluster_loop threshold l used).
Proof.
  revert used. induction l as [|p rest IH]; intros used Hs; simpl; [constructor|].
  inversion Hs as [|? ? Hs' Hp]; subst.
  assert (W : forall used, Forall (fun c => exists p0 ms, points c = p0 :: ms /\ In p0 (p :: rest) /\
            Forall (fun m => dist m p0 <= threshold /\ x p0 <= x m /\ In m (p :: rest)) ms /\
            cid c = match ms with [] => PointKeyOf (id p0) | _ => ClusterKeyOf (id p0) end)
            (cluster_loop threshold rest used)).
  { intros used0. eapply Forall_impl; [|apply IH; exact Hs'].
    intros c (p0 & ms & H1 & H2 & H3 & H4). exists p0, ms. split; [exact H1|split; [right; exact H2|]].
    split; [|exact H4]. eapply Forall_impl; [|exact H3]. intros m (A & B & C). repeat split; auto.
    right; exact C. }
  destruct (in_dec Z.eq_dec (id p) used); [apply W|].
  destruct (scan threshold p rest (id p :: used)) as [ms used'] eqn:E.
  constructor; [|apply W].
  exists p, ms. simpl. split; [reflexivity|split; [left; reflexivity|split]].
  - apply Forall_forall. intros m Hm.
    assert (Hm' : In m (fst (scan threshold p rest (id p :: used)))) by (rewrite E; exact Hm).
    apply scan_members in Hm' as [Hin Hd]. repeat split; [exact Hd| |right; exact Hin].
    rewrite Forall_forall in Hp. apply Hp. exact Hin.
  - destruct ms; reflexivity.
Qed.

(** Every cluster lists its seed first: a target of the input, followed by
    targets of the input within [0.08 * w] of the seed and not left of it;
    its key is the seed's [point-] key when it is alone and its [cluster-]
    key otherwise. *)
Theorem clusters_seeded (w : R) (P : list TargetArea) :
  Forall (fun c => exists p ms, points c = p :: ms /\ In p P /\
            Forall (fun m => dist m p <= w * 0.08 /\ x p <= x m /\ In m P) ms /\
            cid c = match ms with [] => PointKeyOf (id p) | _ => ClusterKeyOf (id p) end)
    (clusters w P).
Proof.
  unfold clusters. cbv zeta.
  assert (Hs : StronglySorted xle (sort_by_x P)).
  { apply Sorted_StronglySorted; [intros a b c; unfold xle; lra|].
    apply Clustering.sort_by_x_sorted. }
  pose proof (Clustering.sort_by_x_perm P) as Hp.
  eapply Forall_impl; [|apply loop_seeded; exact Hs].
  intros c (p & ms & H1 & H2 & H3 & H4). exists p, ms.
  split; [exact H1|split; [apply (Permutation_in _ Hp); exact H2|split; [|exact H4]]].
  eapply Forall_impl; [|exact H3]. intros m (A & B & C). repeat split; auto.
  apply (Permutation_in _ Hp); exact C.
Qed.

End ClusterSeed.

Module AppFlow.

(** Removing a link just added under a fresh id gives back the file list. *)
Theorem add_then_remove_link (newId u : string) (c : FileCategory) (files : list UploadedFile) :
  ~ In newId (map fid files) ->
  handleRemoveFile newId (handleAddLink newId u c files) = files.
Proof.
  intros Hn. unfold handleRemoveFile, handleAddLink. rewrite filter_app. simpl.
  rewrite String.eqb_refl. simpl. rewrite app_nil_r.
  induction files as [|f fs IH]; simpl; [reflexivity|].
  simpl in Hn. destruct (String.eqb_spec (fid f) newId) as [E|E].
  - exfalso. apply Hn. left. exact E.
  - simpl. f_equal. apply IH. tauto.
Qed.

Lemma add_then_remove_link_witness :
  ~ In "f2" (map fid [sample_file]) /\
  handleRemoveFile "f2" (handleAddLink "f2" "https://example.com/data" GEOCHEM [sample_file])
    = [sample_file].
Proof.
  assert (H : ~ In "f2" (map fid [sample_file])) by (simpl; intros [H|[]]; discriminate).
  split; [exact H|]. exact (add_then_remove_link "f2" "https://example.com/data" GEOCHEM
                              [sample_file] H).
Defined.

(** [handleRunAnalysis] changes nothing when offline or without files;
    otherwise it moves to the analysis tab with status [ANALYZING] and no
    error.  On success it shows the results tab with status [COMPLETE] and
    the new result; on failure it sets [ERROR] with a nonempty message (the
    error's own, when it has one), stays on the analysis tab and keeps the
    previous result. *)
Theorem run_analysis_flow (s : AppState) :
  startAnalysis false s = s /\
  (files s = [] -> startAnalysis true s = s) /\
  (files s <> [] ->
   let s1 := startAnalysis true s in
   status s1 = ANALYZING /\ errorMessage s1 = EmptyString /\ activeTab s1 = TabAnalysis /\
   files s1 = files s /\ analysisResult s1 = analysisResult s /\
   (forall r, let s2 := finishAnalysis (Resolved r) s1 in
      status s2 = COMPLETE /\ analysisResult s2 = Some r /\ activeTab s2 = TabResults /\
      errorMessage s2 = EmptyString) /\
   (forall m, let s2 := finishAnalysis (Rejected m) s1 in
      status s2 = ERROR /\ errorMessage s2 <> EmptyString /\ analysisResult s2 = analysisResult s /\
      activeTab s2 = TabAnalysis /\
      (forall m', m = Some m' -> m' <> EmptyString -> errorMessage s2 = m'))).
Proof.
  split; [reflexivity|split].
  - intros H. unfold startAnalysis. rewrite H. reflexivity.
  - intros H. unfold startAnalysis. simpl.
    destruct (files s) eqn:E; [contradiction|]. simpl.
    split; [reflexivity|split; [reflexivity|split; [reflexivity|split; [reflexivity|split; [reflexivity|split]]]]].
    + intros r. repeat split.
    + intros m. cbn. split; [reflexivity|split; [|split; [reflexivity|split; [reflexivity|]]]].
      * destruct m as [m|]; [destruct (String.eqb_spec m EmptyString) as [->|Hm]|]; simpl;
          try discriminate; exact Hm.
      * intros m' -> Hm. destruct (String.eqb_spec m' EmptyString) as [Hm'|Hm']; [contradiction|reflexivity].
Qed.

End AppFlow.


Module Colors.

Lemma cell_intensity_range vb P c : Forall (fun t => 0 <= probability t <= 1) P ->
  In c (cells vb P) -> 0 <= intensity c <= 1.
Proof.
  intros HP Hc. apply Density.in_cells in Hc as [i [j [_ [_ ->]]]].
  rewrite Density.cell_at_intensity. unfold spec_intensity.
  pose proof (Density.sum_nonneg _ (Density.terms_nonneg (center_x vb i) (center_y vb j) P HP)).
  unfold Rmin. destruct (Rle_dec 1 _); lra.
Qed.

(** For probabilities in [[0, 1]], the colour of every cell has an opacity in
    [[0, 1]], which is 0 exactly when the intensity is below 0.1; with no
    targets every cell is transparent. *)
Theorem cell_colors (vb : ViewBox) (P : list TargetArea) :
  Forall (fun t => 0 <= probability t <= 1) P ->
  (forall c, In c (cells vb P) ->
     0 <= snd (getColor (intensity c)) <= 1 /\
     (snd (getColor (intensity c)) = 0 <-> intensity c < 0.1)) /\
  (forall c, In c (cells vb []) -> getColor (intensity c) = (0%Z, 0%Z, 0%Z, 0)).
Proof.
  intros HP. split.
  - intros c Hc. pose proof (cell_intensity_range vb P c HP Hc) as Hr.
    unfold getColor. destruct (Rlt_dec (intensity c) 0.1); simpl; [split; [lra|tauto]|].
    destruct (Rlt_dec (intensity c) 0.3); [|destruct (Rlt_dec (intensity c) 0.6)];
      simpl; split; try lra; split; intros; lra.
  - intros c Hc. apply Density.in_cells in Hc as [i [j [_ [_ ->]]]].
    rewrite Density.cell_at_intensity. unfold spec_intensity, getColor. simpl.
    unfold Rmin. destruct (Rle_dec 1 0); [lra|].
    destruct (Rlt_dec 0 0.1); [reflexivity|lra].
Qed.

Lemma cell_colors_witness :
  Forall (fun t => 0 <= probability t <= 1) [tA; tB] /\
  (forall c, In c (cells (mkViewBox 0 0 100 100) [tA; tB]) ->
     0 <= snd (getColor (intensity c)) <= 1 /\
     (snd (getColor (intensity c)) = 0 <-> intensity c < 0.1)) /\
  (forall c, In c (cells (mkViewBox 0 0 100 100) []) ->
     getColor (intensity c) = (0%Z, 0%Z, 0%Z, 0)).
Proof.
  assert (H : Forall (fun t => 0 <= probability t <= 1) [tA; tB]).
  { repeat constructor; simpl; lra. }
  split; [exact H|]. exact (cell_colors (mkViewBox 0 0 100 100) [tA; tB] H).
Defined.

End Colors.

Module Csv.

Lemma unquote_step c c' r : unquote (String c (String c' r))
  = if Ascii.eqb c quote && Ascii.eqb c' quote then String quote (unquote r)
    else String c (unquote (String c' r)).
Proof. reflexivity. Qed.

Lemma unquote_escape s : unquote (escape_quotes s) = s.
Proof.
  induction s as [|c r IH]; [reflexivity|]. cbn [escape_quotes].
  destruct (Ascii.eqb_spec c quote) as [->|Hc].
  - rewrite unquote_step, Ascii.eqb_refl. simpl. rewrite IH. reflexivity.
  - destruct (escape_quotes r) as [|c' r'] eqn:E.
    + simpl in IH. rewrite <- IH. reflexivity.
    + rewrite unquote_step. destruct (Ascii.eqb_spec c quote); [contradiction|]. cbn [andb].
      rewrite IH. reflexivity.
Qed.

Lemma paired_escape s : quotes_paired (escape_quotes s) = true.
Proof.
  induction s as [|c r IH]; [reflexivity|]. simpl.
  destruct (Ascii.eqb_spec c quote) as [->|Hc]; simpl.
  - rewrite ?Ascii.eqb_refl. simpl. exact IH.
  - destruct (Ascii.eqb_spec c quote); [contradiction|]. exact IH.
Qed.

(** The description and reasoning fields of the CSV export decode back to the
    target's text, and every double quote in them is doubled, so none ends
    the quoted field. *)
Theorem csv_fields_round_trip (t : TargetArea) :
  unquote (csvDesc t) = description t /\
  unquote (csvReasoning t) = match reasoning t with Some r => r | None => EmptyString end /\
  quotes_paired (csvDesc t) = true /\ quotes_paired (csvReasoning t) = true.
Proof.
  unfold csvDesc, csvReasoning.
  destruct (String.eqb_spec (description t) EmptyString) as [E|E];
    [rewrite E|]; (destruct (reasoning t) as [r|];
    [destruct (String.eqb_spec r EmptyString) as [->|Er]|]);
    rewrite ?unquote_escape, ?paired_escape; repeat split; reflexivity.
Qed.

End Csv.

Module Upload.

(** [handleUpload] keeps the existing files first, appends one entry per new
    file with the id drawn for it and the given category, and sets a preview
    URL exactly for the files whose type starts with [image/]. *)
Theorem upload_appends (createObjectURL : FileMeta -> string)
    (newFiles : list (string * FileMeta)) (c : FileCategory) (files : list UploadedFile) :
  let fs := handleUpload createObjectURL newFiles c files in
  firstn (length files) fs = files /\
  map fid (skipn (length files) fs) = map fst newFiles /\
  Forall (fun f => category f = c /\ sourceType f = SrcFile /\
            (previewUrl f <> None <->
             exists m, file f = Some m /\ String.prefix "image/" (ftype m) = true))
    (skipn (length files) fs).
Proof.
  cbv zeta. unfold handleUpload.
  rewrite firstn_app, Nat.sub_diag, firstn_O, app_nil_r, firstn_all.
  rewrite skipn_app, skipn_all, Nat.sub_diag, skipn_O. simpl.
  split; [reflexivity|split].
  - rewrite map_map. apply map_ext. intros [i f]. reflexivity.
  - apply Forall_map. apply Forall_forall. intros [i f] _. simpl.
    split; [reflexivity|split; [reflexivity|]].
    destruct (String.prefix "image/" (ftype f)) eqn:E; split.
    + intros _. exists f. split; [reflexivity|exact E].
    + intros _. discriminate.
    + intros H. contradiction.
    + intros [m [Hm Hp]]. injection Hm as <-. congruence.
Qed.

End Upload.

Module FileSelect.

Lemma filter_length_le {A} (f : A -> bool) l : (length (filter f l) <= length l)%nat.
Proof. induction l as [|a l IH]; simpl; [lia|]. destruct (f a); simpl; lia. Qed.

(** [handleFileChange] splits the selection into accepted and rejected
    files: the count in the error message plus the number of accepted files
    is the number selected, the message never reports 0 files, [onUpload]
    gets exactly the accepted files when there are any, and an empty
    [accept] string rejects nothing. *)
Theorem file_change_partition (trim toLowerCase : string -> string) (accept : string)
    (sel : list FileMeta) :
  let valid := filter (fun f => isValidFileType trim toLowerCase f accept) sel in
  let '(err, up) := handleFileChange trim toLowerCase accept sel in
  (match err with Some k => k | None => 0 end + length valid = length sel)%nat /\
  err <> Some 0%nat /\
  up = match valid with [] => None | _ => Some valid end /\
  (accept = EmptyString -> err = None /\ valid = sel).
Proof.
  cbv zeta.
  assert (Hall : accept = EmptyString ->
    filter (fun f => isValidFileType trim toLowerCase f accept) sel = sel).
  { intros ->. induction sel as [|f fs IH]; [reflexivity|]. simpl. f_equal. exact IH. }
  destruct sel as [|f0 fs] eqn:Es.
  - simpl. repeat split; try discriminate.
  - unfold handleFileChange. cbv zeta. rewrite <- Es in *.
    pose proof (filter_length_le (fun f => isValidFileType trim toLowerCase f accept) sel) as Hle.
    set (valid := filter (fun f => isValidFileType trim toLowerCase f accept) sel) in *.
    assert (Hs : (0 < length sel)%nat) by (rewrite Es; simpl; lia).
    split; [|split; [|split]].
    + destruct (Nat.ltb_spec 0 (length sel - length valid)); lia.
    + destruct (Nat.ltb_spec 0 (length sel - length valid)); [|discriminate].
      intros He. injection He. lia.
    + destruct valid; reflexivity.
    + intros H. specialize (Hall H). rewrite Hall. rewrite Nat.sub_diag. split; reflexivity.
Qed.

End FileSelect.
